(** * usysconf state tracker (src/state.c)

    A shallow embedding of the modification-time tracker of usysconf and
    the properties of its five operations.

    - The chain of [UscStateEntry] nodes is a [list]; a node pointer is a
      position in the chain.
    - C strings are [string]s; a [char *] read by the C library ends at the
      first NUL byte ([c_str]).
    - [time_t] and [errno] are [Z].
    - The file system and the C library calls that touch it are the fields
      of [FileSystem].  [usc_file_exists] and [usc_file_mtime] live in
      files.c, outside this file, and are taken from there as fields too.
    - [calloc] and [strdup] in [usc_state_tracker_put_entry] draw their
      outcome from the script [heap] of the program state; the line
      buffer of [getline] and the copy of the path field in load are
      taken to be there.
    - write prints to a buffered stream; what it returns and the text
      it prints are one thing ([usc_state_tracker_write]), what the disk
      keeps of that text when the stream is closed another
      ([state_file_after_write]).
    - errno is followed where it is read: inside load, from the
      [errno = 0] after [fopen] to the test after the loop. *)

From Stdlib Require Import ZArith List String Ascii Bool Lia.
From Stdlib Require Import Decimal DecimalString DecimalPos DecimalZ.
Import ListNotations.

Local Open Scope string_scope.
Local Open Scope Z_scope.

(** ** C library constants *)

Definition ENOENT : Z := 2.
Definition EINVAL : Z := 22.
Definition ERANGE : Z := 34.
Definition EACCES : Z := 13.

Definition LLONG_MAX : Z := 9223372036854775807.
Definition LLONG_MIN : Z := -9223372036854775808.

Definition NUL : ascii := "000"%char.
Definition LF : ascii := "010"%char.

(** ** Data model *)

(** [struct UscStateEntry]: [next] is the tail of the list. *)
Record UscStateEntry : Type := mkEntry {
  ptr : option string;   (* registered interest, NULL is [None] *)
  mtime : Z              (* last modified stamp *)
}.

(** [struct UscStateTracker]. *)
Record UscStateTracker : Type := mkTracker {
  state_file : string;
  entry : list UscStateEntry   (* root entry in the list *)
}.

(** The program state an operation runs in: the tracker behind [self]
    and the outcomes of the allocations still to come ([true]: the
    allocation succeeds; an exhausted script means memory is plentiful). *)
Record State : Type := mkState {
  self : UscStateTracker;
  heap : list bool
}.

(** The collaborators of the tracker. *)
Record FileSystem : Type := mkFS {
  realpath : string -> option string;        (* realpath(path, NULL) *)
  stat : string -> option Z;                 (* stat(): st_mtime, or failure *)
  usc_file_exists : string -> bool;          (* files.c *)
  usc_file_mtime : string -> option Z;       (* files.c *)
  fopen_r : string -> Z + string;            (* fopen(.., "r"): errno, or the bytes of the file *)
  mkdir : string -> bool;                    (* mkdir(.., 00755) == 0 *)
  fopen_w : string -> bool;                  (* fopen(.., "w") != NULL *)
  fprintf_ok : string -> bool                (* fprintf(fp, ..) >= 0 for this text *)
}.

(** ** String helpers of the C library *)

(** The C string that starts at the first byte of [s]. *)
Fixpoint c_str (s : string) : string :=
  match s with
  | EmptyString => EmptyString
  | String c r => if Ascii.eqb c NUL then EmptyString else String c (c_str r)
  end.

(** [memchr(s, c, strlen s)] as an offset. *)
Fixpoint memchr (s : string) (c : ascii) : option nat :=
  match s with
  | EmptyString => None
  | String a r =>
      if Ascii.eqb a c then Some O
      else match memchr r c with
           | Some i => Some (S i)
           | None => None
           end
  end.

Fixpoint take (n : nat) (s : string) : string :=
  match n, s with
  | S k, String c r => String c (take k r)
  | _, _ => EmptyString
  end.

Fixpoint drop (n : nat) (s : string) : string :=
  match n, s with
  | S k, String _ r => drop k r
  | _, _ => s
  end.

Definition isspace (c : ascii) : bool :=
  let n := nat_of_ascii c in
  ((n =? 32) || ((9 <=? n) && (n <=? 13)))%nat.

Definition isdigit (c : ascii) : bool :=
  let n := nat_of_ascii c in
  ((48 <=? n) && (n <=? 57))%nat.

Definition digit_value (c : ascii) : Z := Z.of_nat (nat_of_ascii c) - 48.

Fixpoint skip_spaces (s : string) : nat * string :=
  match s with
  | EmptyString => (O, s)
  | String c r =>
      if isspace c then let (n, r') := skip_spaces r in (S n, r') else (O, s)
  end.

(** The digits at the head of [s], accumulated in base 10, and their
    number. *)
Fixpoint scan_digits (s : string) (acc : Z) : Z * nat :=
  match s with
  | EmptyString => (acc, O)
  | String c r =>
      if isdigit c
      then let (v, n) := scan_digits r (acc * 10 + digit_value c) in (v, S n)
      else (acc, O)
  end.

(** [strtoll(nptr, &part, 10)] of glibc: the value, [part] as an offset
    into [nptr], and errno after the call.  Without a digit, nothing is
    converted: the value is 0, [part] is [nptr] and errno is untouched.
    A value out of range is clamped and errno becomes ERANGE. *)
Definition strtoll (nptr : string) (errno : Z) : Z * option nat * Z :=
  let (nsp, s1) := skip_spaces nptr in
  let '(negative, nsg, s2) :=
    match s1 with
    | String c r =>
        if Ascii.eqb c "-" then (true, 1%nat, r)
        else if Ascii.eqb c "+" then (false, 1%nat, r)
        else (false, O, s1)
    | EmptyString => (false, O, s1)
    end in
  let (v, nd) := scan_digits s2 0 in
  match nd with
  | O => (0, Some O, errno)
  | S _ =>
      let v' := if negative then - v else v in
      let part := Some (nsp + nsg + nd)%nat in
      if v' <? LLONG_MIN then (LLONG_MIN, part, ERANGE)
      else if LLONG_MAX <? v' then (LLONG_MAX, part, ERANGE)
      else (v', part, errno)
  end.

(** [printf("%ld", t)]. *)
Definition print_ld (t : Z) : string := NilZero.string_of_int (Z.to_int t).

(** The successive results of [getline] on a stream holding [s]: every
    line keeps its newline, the last one may lack it. *)
Fixpoint getlines (s : string) : list string :=
  match s with
  | EmptyString => []
  | String c r =>
      if Ascii.eqb c LF then String c EmptyString :: getlines r
      else match getlines r with
           | [] => [String c EmptyString]
           | l :: ls => String c l :: ls
           end
  end.

(** [if (bfr[read - 1] == '\n') { bfr[read - 1] = '\0'; --read; }] *)
Fixpoint strip_newline (bfr : string) : string :=
  match bfr with
  | EmptyString => EmptyString
  | String c EmptyString => if Ascii.eqb c LF then EmptyString else bfr
  | String c r => String c (strip_newline r)
  end.

(** [*bfr == '#'] on the NUL-terminated buffer. *)
Definition is_comment (bfr : string) : bool :=
  match bfr with
  | String c _ => Ascii.eqb c "#"
  | EmptyString => false
  end.

(** ** The tracker *)

Section Tracker.

(** config.h is not part of the sources at hand; its two paths are taken
    as they come. *)
Variable USYSCONF_STATUS_FILE : string.
Variable USYSCONF_TRACK_DIR : string.

Definition usc_state_tracker_new : UscStateTracker :=
  mkTracker USYSCONF_STATUS_FILE [].

(** [entry->ptr && strcmp(entry->ptr, path) == 0] *)
Definition entry_matches (e : UscStateEntry) (path : string) : bool :=
  match ptr e with
  | Some p => String.eqb p path
  | None => false
  end.

(** The node found is returned as its position in the chain, with the
    node that is there. *)
Fixpoint lookup_from (chain : list UscStateEntry) (path : string)
  : option (nat * UscStateEntry) :=
  match chain with
  | [] => None
  | e :: next =>
      if entry_matches e path then Some (O, e)
      else match lookup_from next path with
           | Some (i, found) => Some (S i, found)
           | None => None
           end
  end.

Definition usc_state_tracker_lookup (t : UscStateTracker) (path : string)
  : option (nat * UscStateEntry) :=
  lookup_from (entry t) path.

(** [entry->mtime = mtime] through a node pointer. *)
Fixpoint set_mtime (chain : list UscStateEntry) (i : nat) (m : Z) : list UscStateEntry :=
  match chain, i with
  | [], _ => []
  | e :: next, O => mkEntry (ptr e) m :: next
  | e :: next, S k => e :: set_mtime next k m
  end.

Definition malloc (h : list bool) : bool * list bool :=
  match h with
  | [] => (true, [])
  | ok :: h' => (ok, h')
  end.

Definition usc_state_tracker_put_entry (st : State) (path : string) (m : Z) : bool * State :=
  let t := self st in
  match usc_state_tracker_lookup t path with
  | Some (i, _) =>
      (true, mkState (mkTracker (state_file t) (set_mtime (entry t) i m)) (heap st))
  | None =>
      (* calloc(1, sizeof(UscStateEntry)) *)
      let (got_entry, h1) := malloc (heap st) in
      if negb got_entry then (false, mkState t h1)
      else
        (* strdup(path) *)
        let (got_ptr, h2) := malloc h1 in
        if negb got_ptr then (false, mkState t h2)
        else
          (true, mkState (mkTracker (state_file t) (mkEntry (Some path) m :: entry t)) h2)
  end.

Definition usc_state_tracker_push_path (fs : FileSystem) (st : State) (path : string)
  : bool * State :=
  match realpath fs path with
  | None => (false, st)
  | Some dup =>
      match stat fs dup with
      | None => (false, st)
      | Some st_mtime => usc_state_tracker_put_entry st dup st_mtime
      end
  end.

Definition header : string :=
  "# This file is automatically generated. DO NOT EDIT" ++ String LF EmptyString.

(** ["%ld:%s\n"] *)
Definition record_line (m : Z) (p : string) : string :=
  print_ld m ++ ":" ++ p ++ String LF EmptyString.

(** The walk over the nodes; [out] is the text the stream [fp] was given
    so far: the text of every [fprintf] that did not fail. *)
Fixpoint write_entries (fs : FileSystem) (chain : list UscStateEntry) (out : string)
  : bool * string :=
  match chain with
  | [] => (true, out)
  | e :: next =>
      match ptr e with
      | None => write_entries fs next out
      | Some p =>
          if negb (usc_file_exists fs p) then write_entries fs next out
          else
            let line := record_line (mtime e) p in
            if fprintf_ok fs line then write_entries fs next (out ++ line)
            else (false, out)
      end
  end.

(** The result and, once the stream [fp] was opened, the text it was
    given.  The stream is buffered and [autofree] closes it when write
    returns, dropping what [fclose] reports: what the file holds then is
    for the disk to say, see [state_file_after_write]. *)
Definition usc_state_tracker_write (fs : FileSystem) (t : UscStateTracker)
  : bool * option string :=
  if negb (usc_file_exists fs USYSCONF_TRACK_DIR) && negb (mkdir fs USYSCONF_TRACK_DIR)
  then (false, None)
  else if negb (fopen_w fs (state_file t)) then (false, None)
  else
    let out := if fprintf_ok fs header then header else EmptyString in
    let (ok, out') := write_entries fs (entry t) out in
    (ok, Some out').

(** How one turn of the [while] loop of load ends. *)
Inductive LoopCtl : Type :=
| Continue (errno : Z) (st : State)
| Break (errno : Z) (st : State).

(** The body of the loop on the line [bfr] that [getline] returned. *)
Definition load_line (fs : FileSystem) (bfr : string) (errno : Z) (st : State) : LoopCtl :=
  if (String.length bfr <? 1)%nat then Continue errno st
  else
    let bfr := strip_newline bfr in
    if is_comment bfr then Continue errno st
    else
      match memchr bfr ":" with
      | None => Break EINVAL st
      | Some c =>
          if (c <? 1)%nat then Break EINVAL st
          else
            let snd := c_str (drop (S c) bfr) in
            let '(t, part, errno) := strtoll (c_str (take c bfr)) errno in
            match part with
            | None => Break EINVAL st
            | Some _ =>
                if negb (usc_file_exists fs snd) then Continue 0 st
                else
                  let (pushed, st') := usc_state_tracker_put_entry st snd t in
                  if negb pushed then Break EINVAL st'
                  else Continue errno st'
            end
      end.

Fixpoint load_loop (fs : FileSystem) (lines : list string) (errno : Z) (st : State)
  : Z * State :=
  match lines with
  | [] => (errno, st)
  | bfr :: rest =>
      match load_line fs bfr errno st with
      | Continue errno' st' => load_loop fs rest errno' st'
      | Break errno' st' => (errno', st')
      end
  end.

Definition usc_state_tracker_load (fs : FileSystem) (st : State) : bool * State :=
  match fopen_r fs (state_file (self st)) with
  | inl errno =>
      if errno =? ENOENT then (true, st) else (false, st)
  | inr contents =>
      let (errno, st') := load_loop fs (getlines contents) 0 st in
      if negb (errno =? 0)
      then (false, mkState (mkTracker (state_file (self st')) []) (heap st'))
      else (true, st')
  end.

Definition usc_state_tracker_needs_update (fs : FileSystem) (st : State)
  (path : string) (force : bool) : bool * State :=
  match realpath fs path with
  | None => (false, st)
  | Some real =>
      match usc_state_tracker_lookup (self st) real with
      | None => (true, st)
      | Some (_, e) =>
          match usc_file_mtime fs real with
          | None => (true, st)
          | Some m =>
              if force then (true, st)
              else if mtime e <? m then (true, st)
              else (false, st)
          end
      end
  end.

End Tracker.

Arguments usc_state_tracker_new USYSCONF_STATUS_FILE : assert.
Arguments usc_state_tracker_write USYSCONF_TRACK_DIR fs t : assert.

(** ** The decision table of needs-update, as the specification words it *)

Definition has_path (e : UscStateEntry) (path : string) : bool :=
  match ptr e with
  | Some p => if string_dec p path then true else false
  | None => false
  end.

(** What a needs-update query gets to see. *)
Record Observed : Type := mkObserved {
  canonical : option string;   (* canonicalize(input_path) *)
  stored : option Z;           (* mtime of the Entry of the canonical path *)
  on_disk : option Z;          (* stat_mtime of the canonical path *)
  forced : bool
}.

Definition observe (fs : FileSystem) (t : UscStateTracker) (path : string) (force : bool)
  : Observed :=
  match realpath fs path with
  | None => mkObserved None None None force
  | Some real =>
      mkObserved (Some real)
        (option_map mtime (find (fun e => has_path e real) (entry t)))
        (usc_file_mtime fs real)
        force
  end.

Definition is_none {A : Type} (o : option A) : bool :=
  match o with
  | None => true
  | Some _ => false
  end.

Definition stored_older (o : Observed) : bool :=
  match stored o, on_disk o with
  | Some s, Some d => s <? d
  | _, _ => false
  end.

(** The rows, in order: a condition and the result when it holds. *)
Definition decision_table : list ((Observed -> bool) * bool) :=
  [ (fun o => is_none (canonical o), false);
    (fun o => is_none (stored o), true);
    (fun o => is_none (on_disk o), true);
    (fun o => forced o, true);
    (stored_older, true) ].

(** First matching row wins; [otherwise] when no row matches. *)
Fixpoint first_match (rows : list ((Observed -> bool) * bool)) (otherwise : bool)
  (o : Observed) : bool :=
  match rows with
  | [] => otherwise
  | (condition, result) :: rows' =>
      if condition o then result else first_match rows' otherwise o
  end.

(** ** Why record-path fails *)

Inductive push_failure (fs : FileSystem) (st : State) (path : string) : Prop :=
| canonicalize_fails :
    realpath fs path = None -> push_failure fs st path
| stat_fails dup :
    realpath fs path = Some dup -> stat fs dup = None -> push_failure fs st path
| entry_allocation_fails dup m h :
    realpath fs path = Some dup -> stat fs dup = Some m ->
    usc_state_tracker_lookup (self st) dup = None ->
    heap st = false :: h -> push_failure fs st path
| path_allocation_fails dup m h :
    realpath fs path = Some dup -> stat fs dup = Some m ->
    usc_state_tracker_lookup (self st) dup = None ->
    heap st = true :: false :: h -> push_failure fs st path.

(** ** Scenarios *)

(** A disk of regular files with their mtimes, every path canonical
    already, and a state file that opens as [status] says. *)
Definition disk (files : list (string * Z)) (status : Z + string) : FileSystem :=
  let mtime_of p := option_map snd (find (fun f => String.eqb (fst f) p) files) in
  mkFS (fun p => if is_none (mtime_of p) then None else Some p)
       mtime_of
       (fun p => negb (is_none (mtime_of p)))
       mtime_of
       (fun _ => status)
       (fun _ => true)
       (fun _ => true)
       (fun _ => true).

Definition status_path : string := "/var/lib/usysconf/status".

Definition tracking (chain : list UscStateEntry) : State :=
  mkState (mkTracker status_path chain) [].

(** A state file given line by line. *)
Definition file_of_lines (lines : list string) : string :=
  String.concat EmptyString (map (fun l => l ++ String LF EmptyString) lines).

(** ** Lines that load reports as erroneous

    "Erronous line in input misses colon" and "Missing filename in line":
    a line that is no comment and has no colon, or has its first colon as
    its first byte. *)
Definition fatal_line (bfr : string) : bool :=
  negb (String.length bfr <? 1)%nat &&
  negb (is_comment (strip_newline bfr)) &&
  match memchr (strip_newline bfr) ":" with
  | None => true
  | Some c => (c <? 1)%nat
  end.

(** A position in a file where a line can go in: the very start, or
    right after a newline. *)
Fixpoint at_line_start (before : string) : bool :=
  match before with
  | EmptyString => true
  | String c EmptyString => Ascii.eqb c LF
  | String _ r => at_line_start r
  end.

Fixpoint has_byte (c : ascii) (s : string) : bool :=
  match s with
  | EmptyString => false
  | String a r => Ascii.eqb a c || has_byte c r
  end.

(** ** Histories of a tracker *)

Inductive Op : Type :=
| RecordPath (input_path : string)
| Load.

Definition run_op (fs : FileSystem) (op : Op) (st : State) : bool * State :=
  match op with
  | RecordPath input_path => usc_state_tracker_push_path fs st input_path
  | Load => usc_state_tracker_load fs st
  end.

(** The calls made on a tracker, each with the file system as it is at
    that moment. *)
Fixpoint run (history : list (FileSystem * Op)) (st : State) : State :=
  match history with
  | [] => st
  | (fs, op) :: rest => run rest (snd (run_op fs op st))
  end.

(** record-path on each input in turn; the result tells whether every
    call returned success. *)
Fixpoint record_paths (fs : FileSystem) (inputs : list string) (st : State)
  : bool * State :=
  match inputs with
  | [] => (true, st)
  | input_path :: rest =>
      let (ok, st1) := usc_state_tracker_push_path fs st input_path in
      let (oks, st2) := record_paths fs rest st1 in
      (ok && oks, st2)
  end.

Definition paths (t : UscStateTracker) : list (option string) := map ptr (entry t).

(** No two Entries have the same path, and every Entry has one. *)
Definition unique_paths (t : UscStateTracker) : Prop :=
  NoDup (paths t) /\ ~ In None (paths t).

Definition option_string_dec (a b : option string) : {a = b} + {a <> b}.
Proof. decide equality. apply string_dec. Defined.

Definition distinct (l : list (option string)) : nat :=
  List.length (nodup option_string_dec l).

(** ** Writing, then loading *)

(** The file system in which [file] holds [contents]. *)
Definition with_state_file (fs : FileSystem) (file contents : string) : FileSystem :=
  mkFS (realpath fs) (stat fs) (usc_file_exists fs) (usc_file_mtime fs)
       (fun name => if String.eqb name file then inr contents else fopen_r fs name)
       (mkdir fs) (fopen_w fs) (fprintf_ok fs).

(** A path that fits on a line of the state file: no NUL, no newline. *)
Definition plain (path : string) : bool :=
  negb (has_byte NUL path) && negb (has_byte LF path).

(** The Entries that write does not drop. *)
Definition kept (fs : FileSystem) (e : UscStateEntry) : bool :=
  match ptr e with
  | Some p => usc_file_exists fs p
  | None => false
  end.

Definition line_of (e : UscStateEntry) : string :=
  match ptr e with
  | Some p => record_line (mtime e) p
  | None => EmptyString
  end.

(** An Entry that write keeps and whose line reads back: the mtime is a
    [time_t] and the path is plain. *)
Definition writable (fs : FileSystem) (e : UscStateEntry) : Prop :=
  kept fs e = true ->
  (LLONG_MIN <= mtime e <= LLONG_MAX) /\
  (forall p, ptr e = Some p -> plain p = true).

Fixpoint all_bytes (f : ascii -> bool) (s : string) : bool :=
  match s with
  | EmptyString => true
  | String a r => f a && all_bytes f r
  end.

(** The bytes ["%ld"] prints. *)
Definition numeric (c : ascii) : bool := isdigit c || Ascii.eqb c "-".

Definition join (lines : list string) : string := fold_right append EmptyString lines.

(** The Entry a tracker holds for a path. *)
Definition found (t : UscStateTracker) (path : string) : option UscStateEntry :=
  option_map snd (usc_state_tracker_lookup t path).

(** ** The path field of a line

    What load takes as the path of the line [bfr]: the C string after
    its first colon. *)
Definition line_path (bfr : string) : option string :=
  let bfr := strip_newline bfr in
  match memchr bfr ":" with
  | Some c => Some (c_str (drop (S c) bfr))
  | None => None
  end.

(** The text write starts the file with. *)
Definition written_header (fs : FileSystem) : string :=
  if fprintf_ok fs header then header else EmptyString.

(** The program state a turn of the loop of load leaves. *)
Definition ctl_state (ctl : LoopCtl) : State :=
  match ctl with
  | Continue _ st | Break _ st => st
  end.

(** ** The state file after write

    What a disk keeps of the text printed to a stream by the time the
    stream is closed: all of it when the disk works, none of it when it
    is full, and [fclose] is not asked. *)
Definition Disk : Type := string -> string.

Definition working_disk : Disk := fun printed => printed.

Definition full_disk : Disk := fun _ => EmptyString.

(** What the state file holds when write has returned; [None] when write
    did not get to open it, and it is as it was. *)
Definition state_file_after_write (dir : string) (fs : FileSystem) (disk : Disk)
  (t : UscStateTracker) : option string :=
  option_map disk (snd (usc_state_tracker_write dir fs t)).

(** ** Lookup *)

Lemma entry_matches_has_path e path : entry_matches e path = has_path e path.
Proof.
  unfold entry_matches, has_path.
  destruct (ptr e) as [p|]; [|reflexivity].
  destruct (string_dec p path) as [->|Hne].
  - apply String.eqb_refl.
  - now apply String.eqb_neq.
Qed.

Lemma lookup_from_find chain path :
  option_map snd (lookup_from chain path) = find (fun e => has_path e path) chain.
Proof.
  induction chain as [|e next IH]; simpl; [reflexivity|].
  rewrite <- entry_matches_has_path.
  destruct (entry_matches e path); [reflexivity|].
  rewrite <- IH.
  now destruct (lookup_from next path) as [[i found]|].
Qed.

Lemma lookup_from_ptr chain path i e :
  lookup_from chain path = Some (i, e) -> ptr e = Some path.
Proof.
  revert i; induction chain as [|e0 next IH]; simpl; intros i H; [discriminate|].
  destruct (entry_matches e0 path) eqn:Hm.
  - injection H as _ <-.
    unfold entry_matches in Hm.
    destruct (ptr e0) as [p|]; [|discriminate].
    apply String.eqb_eq in Hm. now subst.
  - destruct (lookup_from next path) as [[j found]|]; [|discriminate].
    injection H as _ <-. eauto.
Qed.

(** ** needs-update *)

(** C10: needs-update is a pure query: it hands back the program state
    it was given, tracker and all, and so asking twice on an unchanged
    file system gives the same answer twice. *)
Theorem needs_update_is_a_query fs st path force :
  snd (usc_state_tracker_needs_update fs st path force) = st /\
  fst (usc_state_tracker_needs_update fs
         (snd (usc_state_tracker_needs_update fs st path force)) path force)
  = fst (usc_state_tracker_needs_update fs st path force).
Proof.
  assert (Hst : snd (usc_state_tracker_needs_update fs st path force) = st).
  { unfold usc_state_tracker_needs_update.
    destruct (realpath fs path) as [real|]; [|reflexivity].
    destruct (usc_state_tracker_lookup (self st) real) as [[i e]|]; [|reflexivity].
    destruct (usc_file_mtime fs real) as [m|]; [|reflexivity].
    destruct force; [reflexivity|].
    now destruct (mtime e <? m). }
  split; [exact Hst|now rewrite Hst].
Qed.

(** C1: needs-update answers as the decision table read top to bottom
    does (canonicalize fails: false; no Entry: true; stat_mtime fails:
    true; force: true; stored mtime below the observed one: true;
    otherwise false), and with force set it answers true as soon as
    canonicalize succeeds. *)
Theorem needs_update_decision_table fs st path :
  (forall force,
     fst (usc_state_tracker_needs_update fs st path force)
     = first_match decision_table false (observe fs (self st) path force)) /\
  (realpath fs path <> None ->
     fst (usc_state_tracker_needs_update fs st path true) = true).
Proof.
  split.
  - intros force.
    unfold usc_state_tracker_needs_update, observe, usc_state_tracker_lookup.
    destruct (realpath fs path) as [real|]; [|reflexivity].
    rewrite <- lookup_from_find.
    destruct (lookup_from (entry (self st)) real) as [[i e]|]; [|reflexivity].
    simpl.
    destruct (usc_file_mtime fs real) as [m|]; [|reflexivity].
    destruct force; [reflexivity|].
    unfold stored_older; simpl.
    now destruct (mtime e <? m).
  - intros Hcanon.
    unfold usc_state_tracker_needs_update.
    destruct (realpath fs path) as [real|]; [|contradiction].
    destruct (usc_state_tracker_lookup (self st) real) as [[i e]|]; [|reflexivity].
    now destruct (usc_file_mtime fs real).
Qed.

Lemma needs_update_decision_table_witness :
  let fs := disk [("/etc/foo", 1500)] (inl ENOENT) in
  let st := tracking [mkEntry (Some "/etc/foo") 2000] in
  realpath fs "/etc/foo" <> None /\
  fst (usc_state_tracker_needs_update fs st "/etc/foo" false) = false /\
  fst (usc_state_tracker_needs_update fs st "/etc/foo" true) = true.
Proof.
  intros fs st.
  assert (Hcanon : realpath fs "/etc/foo" <> None) by (vm_compute; discriminate).
  destruct (needs_update_decision_table fs st "/etc/foo") as [Htable Hforce].
  split; [exact Hcanon|split].
  - rewrite (Htable false). reflexivity.
  - exact (Hforce Hcanon).
Defined.

(** ** record-path *)

Lemma put_entry_failure_keeps_tracker st path m :
  fst (usc_state_tracker_put_entry st path m) = false ->
  self (snd (usc_state_tracker_put_entry st path m)) = self st.
Proof.
  unfold usc_state_tracker_put_entry.
  destruct (usc_state_tracker_lookup (self st) path) as [[i e]|]; simpl; [discriminate|].
  destruct (malloc (heap st)) as [[|] h1]; simpl; [|reflexivity].
  destruct (malloc h1) as [[|] h2]; simpl; [discriminate|reflexivity].
Qed.

Lemma push_path_failure_keeps_tracker fs st path :
  fst (usc_state_tracker_push_path fs st path) = false ->
  self (snd (usc_state_tracker_push_path fs st path)) = self st.
Proof.
  unfold usc_state_tracker_push_path.
  destruct (realpath fs path) as [dup|]; [|reflexivity].
  destruct (stat fs dup) as [m|]; [|reflexivity].
  apply put_entry_failure_keeps_tracker.
Qed.

(** C7: when canonicalization fails, when stat of the canonical path
    fails, or when an allocation for the new Entry fails, record-path
    returns failure and the tracker is the one it was before the call. *)
Theorem push_path_atomic_on_failure fs st path :
  push_failure fs st path ->
  fst (usc_state_tracker_push_path fs st path) = false /\
  self (snd (usc_state_tracker_push_path fs st path)) = self st.
Proof.
  intros Hcause.
  assert (Hfail : fst (usc_state_tracker_push_path fs st path) = false).
  { unfold usc_state_tracker_push_path.
    destruct Hcause as [Hc | dup Hc Hs | dup m h Hc Hs Hl Hh | dup m h Hc Hs Hl Hh];
      rewrite Hc; try reflexivity; rewrite Hs; try reflexivity;
      unfold usc_state_tracker_put_entry; rewrite Hl, Hh; reflexivity. }
  split; [exact Hfail|].
  now apply push_path_failure_keeps_tracker.
Qed.

Lemma push_path_atomic_on_failure_witness :
  let fs := disk [("/etc/foo", 1000)] (inl ENOENT) in
  let chain := [mkEntry (Some "/etc/bar") 5] in
  let st := mkState (mkTracker status_path chain) [true; false] in
  push_failure fs st "/etc/foo" /\
  fst (usc_state_tracker_push_path fs st "/etc/foo") = false /\
  self (snd (usc_state_tracker_push_path fs st "/etc/foo")) = mkTracker status_path chain.
Proof.
  intros fs chain st.
  assert (Hcause : push_failure fs st "/etc/foo").
  { apply (path_allocation_fails fs st "/etc/foo" "/etc/foo" 1000 []); reflexivity. }
  split; [exact Hcause|].
  exact (push_path_atomic_on_failure fs st "/etc/foo" Hcause).
Defined.

(** ** load: opening the state file *)

(** C9: when the state file cannot be opened because it does not exist,
    load returns success and leaves the program state as it was; when it
    cannot be opened for another reason, load returns failure. *)
Theorem load_missing_state_file fs st errno :
  fopen_r fs (state_file (self st)) = inl errno ->
  (errno = ENOENT -> usc_state_tracker_load fs st = (true, st)) /\
  (errno <> ENOENT -> fst (usc_state_tracker_load fs st) = false).
Proof.
  intros Hopen. unfold usc_state_tracker_load. rewrite Hopen.
  split.
  - intros ->. reflexivity.
  - intros Hne. apply Z.eqb_neq in Hne. now rewrite Hne.
Qed.

Lemma load_missing_state_file_witness :
  let st := tracking [mkEntry (Some "/etc/foo") 1000] in
  usc_state_tracker_load (disk [] (inl ENOENT)) st = (true, st) /\
  fst (usc_state_tracker_load (disk [] (inl EACCES)) st) = false.
Proof.
  intros st. split.
  - apply (load_missing_state_file (disk [] (inl ENOENT)) st ENOENT); reflexivity.
  - apply (load_missing_state_file (disk [] (inl EACCES)) st EACCES);
      [reflexivity|discriminate].
Defined.

(** ** load: the parse loop *)

Lemma load_line_break fs bfr errno st errno' st' :
  load_line fs bfr errno st = Break errno' st' -> errno' = EINVAL.
Proof.
  unfold load_line.
  destruct (String.length bfr <? 1)%nat; [discriminate|].
  destruct (is_comment (strip_newline bfr)); [discriminate|].
  destruct (memchr (strip_newline bfr) ":") as [c|]; [|now intros [= <- _]].
  destruct (c <? 1)%nat; [now intros [= <- _]|].
  destruct (strtoll _ errno) as [[t part] e1].
  destruct part as [off|]; [|now intros [= <- _]].
  destruct (usc_file_exists fs _); simpl; [|discriminate].
  destruct (usc_state_tracker_put_entry st _ t) as [[|] st1]; simpl;
    [discriminate|now intros [= <- _]].
Qed.

Lemma load_line_fatal fs bfr errno st :
  fatal_line bfr = true -> load_line fs bfr errno st = Break EINVAL st.
Proof.
  unfold fatal_line, load_line. intros H.
  apply andb_prop in H as [H Hcolon]. apply andb_prop in H as [Hlen Hcomment].
  apply negb_true_iff in Hlen, Hcomment. rewrite Hlen, Hcomment.
  destruct (memchr (strip_newline bfr) ":") as [c|]; [|reflexivity].
  now rewrite Hcolon.
Qed.

Lemma load_loop_fatal fs lines bfr :
  In bfr lines -> fatal_line bfr = true ->
  forall errno st, fst (load_loop fs lines errno st) <> 0.
Proof.
  intros Hin Hfatal.
  induction lines as [|l rest IH]; [contradiction|].
  intros errno st. simpl.
  destruct (load_line fs l errno st) as [e1 st1|e1 st1] eqn:Hline.
  - destruct Hin as [->|Hin].
    + rewrite load_line_fatal in Hline by exact Hfatal. discriminate.
    + now apply IH.
  - apply load_line_break in Hline. subst e1. discriminate.
Qed.

Lemma load_fatal_line fs st contents bfr :
  fopen_r fs (state_file (self st)) = inr contents ->
  In bfr (getlines contents) -> fatal_line bfr = true ->
  fst (usc_state_tracker_load fs st) = false.
Proof.
  intros Hopen Hin Hfatal. unfold usc_state_tracker_load. rewrite Hopen.
  pose proof (load_loop_fatal fs _ bfr Hin Hfatal 0 st) as Hne.
  destruct (load_loop fs (getlines contents) 0 st) as [e st1]; simpl in *.
  apply Z.eqb_neq in Hne. now rewrite Hne.
Qed.

Lemma load_failure_clears fs st contents :
  fopen_r fs (state_file (self st)) = inr contents ->
  fst (usc_state_tracker_load fs st) = false ->
  entry (self (snd (usc_state_tracker_load fs st))) = [].
Proof.
  intros Hopen. unfold usc_state_tracker_load. rewrite Hopen.
  destruct (load_loop fs (getlines contents) 0 st) as [e st1].
  destruct (e =? 0); simpl; [discriminate|reflexivity].
Qed.

(** For the lines load does report as erroneous, the policy is all or
    nothing: such a line anywhere in the file makes load return failure,
    and a load that returns failure leaves the tracker without any
    Entry, whatever it held before the call or took from earlier
    lines. *)
Lemma load_reported_error_clears fs st contents :
  fopen_r fs (state_file (self st)) = inr contents ->
  ((exists bfr, In bfr (getlines contents) /\ fatal_line bfr = true) ->
     fst (usc_state_tracker_load fs st) = false) /\
  (fst (usc_state_tracker_load fs st) = false ->
     entry (self (snd (usc_state_tracker_load fs st))) = []).
Proof.
  intros Hopen. split.
  - intros (bfr & Hin & Hfatal). now apply load_fatal_line with contents bfr.
  - now apply load_failure_clears with contents.
Qed.

Example load_reported_error_clears_example :
  let contents := file_of_lines ["1000:/etc/foo"; "no colon here"; "7:/etc/bar"] in
  let fs := disk [("/etc/foo", 1000); ("/etc/bar", 7)] (inr contents) in
  let st := tracking [mkEntry (Some "/etc/baz") 3] in
  fst (usc_state_tracker_load fs st) = false /\
  entry (self (snd (usc_state_tracker_load fs st))) = [].
Proof.
  intros contents fs st.
  destruct (load_reported_error_clears fs st contents eq_refl) as [Hfail Hempty].
  assert (H : fst (usc_state_tracker_load fs st) = false).
  { apply Hfail. exists ("no colon here" ++ String LF EmptyString).
    split; [vm_compute; tauto|reflexivity]. }
  split; [exact H|exact (Hempty H)].
Qed.

(** ** load: lines that are skipped *)

Lemma getlines_line s rest :
  has_byte LF s = false ->
  getlines (s ++ String LF rest) = (s ++ String LF EmptyString) :: getlines rest.
Proof.
  induction s as [|c s IH]; simpl; intros H; [reflexivity|].
  apply orb_false_iff in H as [Hc Hs].
  rewrite Hc, (IH Hs). reflexivity.
Qed.

Lemma getlines_cons c r :
  getlines (String c r)
  = if Ascii.eqb c LF then String c EmptyString :: getlines r
    else match getlines r with
         | [] => [String c EmptyString]
         | l :: ls => String c l :: ls
         end.
Proof. reflexivity. Qed.

Lemma getlines_nonempty c s : getlines (String c s) <> [].
Proof.
  simpl. destruct (Ascii.eqb c LF); [discriminate|].
  destruct (getlines s); discriminate.
Qed.

Lemma getlines_app before rest :
  at_line_start before = true ->
  getlines (before ++ rest) = (getlines before ++ getlines rest)%list.
Proof.
  induction before as [|c s IH]; intros H; [reflexivity|].
  destruct s as [|c' s'].
  - simpl in H. simpl. now rewrite H.
  - specialize (IH H).
    change ((String c (String c' s') ++ rest)%string)
      with (String c (String c' s' ++ rest)%string).
    rewrite !(getlines_cons c), IH.
    destruct (Ascii.eqb c LF); [reflexivity|].
    pose proof (getlines_nonempty c' s') as Hne.
    destruct (getlines (String c' s')) as [|l ls]; [contradiction|reflexivity].
Qed.

Lemma strip_newline_line s : strip_newline (s ++ String LF EmptyString) = s.
Proof.
  induction s as [|c s IH]; [reflexivity|].
  simpl. rewrite IH.
  now destruct s.
Qed.

Lemma load_line_comment fs text errno st :
  load_line fs (String "#" text ++ String LF EmptyString) errno st = Continue errno st.
Proof.
  unfold load_line. rewrite strip_newline_line. reflexivity.
Qed.

Lemma load_loop_skips fs skipped :
  (forall errno st, load_line fs skipped errno st = Continue errno st) ->
  forall before rest errno st,
    load_loop fs (before ++ skipped :: rest) errno st
    = load_loop fs (before ++ rest) errno st.
Proof.
  intros Hskip before rest.
  induction before as [|l ls IH]; intros errno st; simpl.
  - now rewrite Hskip.
  - destruct (load_line fs l errno st); [apply IH|reflexivity].
Qed.

(** A ['#'] line put in at any line start of the state file changes
    neither the result of load nor the state it leaves. *)
Lemma load_comment_line_inserted fs fs' st before text rest :
  at_line_start before = true ->
  has_byte LF text = false ->
  fopen_r fs (state_file (self st)) = inr (before ++ rest) ->
  fopen_r fs' (state_file (self st))
  = inr (before ++ String "#" text ++ String LF rest) ->
  usc_file_exists fs' = usc_file_exists fs ->
  usc_state_tracker_load fs' st = usc_state_tracker_load fs st.
Proof.
  intros Hstart Htext Hopen Hopen' Hexists.
  unfold usc_state_tracker_load. rewrite Hopen, Hopen'.
  rewrite (getlines_app before rest Hstart).
  rewrite (getlines_app before _ Hstart).
  change (String "#" text ++ String LF rest)%string
    with (String "#" (text ++ String LF rest))%string.
  assert (Hline : getlines (String "#" (text ++ String LF rest))
                  = (String "#" text ++ String LF EmptyString) :: getlines rest).
  { apply (getlines_line (String "#" text) rest). simpl. exact Htext. }
  rewrite Hline.
  rewrite load_loop_skips by (intros; apply load_line_comment).
  assert (Hloop : forall lines errno st0,
             load_loop fs' lines errno st0 = load_loop fs lines errno st0).
  { induction lines as [|l ls IH]; intros errno st0; simpl; [reflexivity|].
    unfold load_line. rewrite Hexists.
    fold (load_line fs l errno st0).
    destruct (load_line fs l errno st0); [apply IH|reflexivity]. }
  now rewrite Hloop.
Qed.

(** ** Uniqueness of paths *)

Lemma lookup_from_none chain path :
  lookup_from chain path = None <-> ~ In (Some path) (map ptr chain).
Proof.
  induction chain as [|e next [IHn IHs]]; simpl; [tauto|].
  assert (Hm : entry_matches e path = true <-> ptr e = Some path).
  { unfold entry_matches. destruct (ptr e) as [p|]; [|split; discriminate].
    rewrite String.eqb_eq. split; congruence. }
  destruct (entry_matches e path).
  - split; [discriminate|]. intros H. exfalso. apply H. left. now apply Hm.
  - assert (Hne : ptr e <> Some path) by (intros H; apply Hm in H; discriminate).
    destruct (lookup_from next path) as [[i found]|].
    + split; [discriminate|]. intros H.
      discriminate (IHs (fun Hin => H (or_intror Hin))).
    + split; [|reflexivity]. intros _ [H|H]; [contradiction|].
      now apply (IHn eq_refl).
Qed.

Lemma lookup_from_some chain path i e :
  lookup_from chain path = Some (i, e) -> In (Some path) (map ptr chain).
Proof.
  intros H.
  destruct (in_dec option_string_dec (Some path) (map ptr chain)) as [Hin|Hout];
    [exact Hin|].
  apply lookup_from_none in Hout. congruence.
Qed.

Lemma set_mtime_paths chain i m : map ptr (set_mtime chain i m) = map ptr chain.
Proof.
  revert i; induction chain as [|e next IH]; intros [|k]; simpl; try reflexivity.
  now rewrite IH.
Qed.

Lemma set_mtime_lookup chain path i e m :
  lookup_from chain path = Some (i, e) ->
  lookup_from (set_mtime chain i m) path = Some (i, mkEntry (Some path) m).
Proof.
  revert i; induction chain as [|e0 next IH]; simpl; intros i H; [discriminate|].
  destruct (entry_matches e0 path) eqn:Hm.
  - injection H as <- <-. simpl.
    assert (Hp : ptr e0 = Some path).
    { unfold entry_matches in Hm. destruct (ptr e0) as [p|]; [|discriminate].
      apply String.eqb_eq in Hm. now subst. }
    unfold entry_matches; simpl. rewrite Hp, String.eqb_refl. reflexivity.
  - destruct (lookup_from next path) as [[j found]|] eqn:Hl; [|discriminate].
    injection H as <- <-. simpl. rewrite Hm.
    now rewrite (IH j eq_refl).
Qed.

(** What a successful put leaves in the chain. *)
Lemma put_entry_paths st path m :
  fst (usc_state_tracker_put_entry st path m) = true ->
  forall x, In x (paths (self (snd (usc_state_tracker_put_entry st path m))))
            <-> x = Some path \/ In x (paths (self st)).
Proof.
  unfold usc_state_tracker_put_entry, usc_state_tracker_lookup, paths.
  destruct (lookup_from (entry (self st)) path) as [[i e]|] eqn:Hl; simpl.
  - intros _ x. rewrite set_mtime_paths.
    apply lookup_from_some in Hl.
    split; [now right|]. intros [->|H]; assumption.
  - destruct (malloc (heap st)) as [[|] h1]; simpl; [|discriminate].
    destruct (malloc h1) as [[|] h2]; simpl; [|discriminate].
    intros _ x. split; intros [H|H]; auto.
Qed.

Lemma put_entry_unique st path m :
  unique_paths (self st) ->
  unique_paths (self (snd (usc_state_tracker_put_entry st path m))).
Proof.
  unfold usc_state_tracker_put_entry, usc_state_tracker_lookup, unique_paths, paths.
  intros [Hnodup Hsome].
  destruct (lookup_from (entry (self st)) path) as [[i e]|] eqn:Hl; simpl.
  - now rewrite set_mtime_paths.
  - destruct (malloc (heap st)) as [[|] h1]; simpl; [|now split].
    destruct (malloc h1) as [[|] h2]; simpl; [|now split].
    apply lookup_from_none in Hl.
    split; [now constructor|].
    intros [H|H]; [discriminate|contradiction].
Qed.

(** An existing path is updated in place: same position, same paths,
    new mtime. *)
Lemma put_entry_in_place st path m i e :
  usc_state_tracker_lookup (self st) path = Some (i, e) ->
  fst (usc_state_tracker_put_entry st path m) = true /\
  paths (self (snd (usc_state_tracker_put_entry st path m))) = paths (self st) /\
  usc_state_tracker_lookup (self (snd (usc_state_tracker_put_entry st path m))) path
  = Some (i, mkEntry (Some path) m).
Proof.
  intros Hl. unfold usc_state_tracker_put_entry. rewrite Hl. simpl.
  unfold paths, usc_state_tracker_lookup in *; simpl.
  rewrite set_mtime_paths.
  repeat split. now apply set_mtime_lookup with (e := e).
Qed.

Lemma push_path_unique fs st path :
  unique_paths (self st) ->
  unique_paths (self (snd (usc_state_tracker_push_path fs st path))).
Proof.
  intros H. unfold usc_state_tracker_push_path.
  destruct (realpath fs path) as [dup|]; [|exact H].
  destruct (stat fs dup) as [m|]; [|exact H].
  now apply put_entry_unique.
Qed.

Lemma load_line_unique fs bfr errno st :
  unique_paths (self st) ->
  match load_line fs bfr errno st with
  | Continue _ st' | Break _ st' => unique_paths (self st')
  end.
Proof.
  intros H. unfold load_line.
  destruct (String.length bfr <? 1)%nat; [exact H|].
  destruct (is_comment (strip_newline bfr)); [exact H|].
  destruct (memchr (strip_newline bfr) ":") as [c|]; [|exact H].
  destruct (c <? 1)%nat; [exact H|].
  destruct (strtoll _ errno) as [[t part] e1].
  destruct part as [off|]; [|exact H].
  destruct (usc_file_exists fs _); simpl; [|exact H].
  pose proof (put_entry_unique st (c_str (drop (S c) (strip_newline bfr))) t H) as Hput.
  destruct (usc_state_tracker_put_entry st _ t) as [[|] st1]; exact Hput.
Qed.

Lemma load_loop_unique fs lines :
  forall errno st,
    unique_paths (self st) ->
    unique_paths (self (snd (load_loop fs lines errno st))).
Proof.
  induction lines as [|l rest IH]; intros errno st H; [exact H|].
  simpl. pose proof (load_line_unique fs l errno st H) as Hline.
  destruct (load_line fs l errno st) as [e1 st1|e1 st1]; [now apply IH|exact Hline].
Qed.

Lemma load_unique fs st :
  unique_paths (self st) ->
  unique_paths (self (snd (usc_state_tracker_load fs st))).
Proof.
  intros H. unfold usc_state_tracker_load.
  destruct (fopen_r fs (state_file (self st))) as [errno|contents].
  - now destruct (errno =? ENOENT).
  - pose proof (load_loop_unique fs (getlines contents) 0 st H) as Hloop.
    destruct (load_loop fs (getlines contents) 0 st) as [e st1].
    destruct (e =? 0); simpl; [exact Hloop|].
    split; [constructor|intros []].
Qed.

Lemma run_unique history :
  forall st, unique_paths (self st) -> unique_paths (self (run history st)).
Proof.
  induction history as [|[fs op] rest IH]; intros st H; [exact H|].
  simpl. apply IH.
  destruct op; simpl; [now apply push_path_unique|now apply load_unique].
Qed.

Lemma record_paths_paths fs inputs :
  forall st,
    fst (record_paths fs inputs st) = true ->
    forall x, In x (paths (self (snd (record_paths fs inputs st))))
              <-> In x (paths (self st)) \/ In x (map (realpath fs) inputs).
Proof.
  induction inputs as [|p rest IH]; intros st Hok x; simpl; [tauto|].
  simpl in Hok.
  destruct (usc_state_tracker_push_path fs st p) as [ok st1] eqn:Hpush.
  specialize (IH st1).
  destruct (record_paths fs rest st1) as [oks st2]. simpl in *.
  apply andb_prop in Hok as [-> ->].
  rewrite (IH eq_refl x). clear IH.
  unfold usc_state_tracker_push_path in Hpush.
  destruct (realpath fs p) as [dup|]; [|discriminate].
  destruct (stat fs dup) as [m|]; [|discriminate].
  pose proof (put_entry_paths st dup m) as Hput.
  rewrite Hpush in Hput. simpl in Hput.
  rewrite (Hput eq_refl x). intuition auto.
Qed.

Lemma record_paths_unique fs inputs :
  forall st, unique_paths (self st) ->
             unique_paths (self (snd (record_paths fs inputs st))).
Proof.
  induction inputs as [|p rest IH]; intros st H; [exact H|].
  simpl. pose proof (push_path_unique fs st p H) as Hpush.
  destruct (usc_state_tracker_push_path fs st p) as [ok st1].
  specialize (IH st1 Hpush).
  now destruct (record_paths fs rest st1).
Qed.

Lemma new_unique file : unique_paths (usc_state_tracker_new file).
Proof. split; [constructor|intros []]. Qed.

(** C8: starting from an empty tracker, whatever record-path and load
    calls are made, no two Entries have the same path; recording a path
    that has an Entry rewrites the mtime of that Entry where it stands;
    and after record-path calls that all succeed, there are as many
    Entries as distinct canonical paths among the inputs. *)
Theorem paths_are_unique file :
  (forall history h,
     unique_paths (self (run history (mkState (usc_state_tracker_new file) h)))) /\
  (forall st path m i e,
     usc_state_tracker_lookup (self st) path = Some (i, e) ->
     paths (self (snd (usc_state_tracker_put_entry st path m))) = paths (self st) /\
     usc_state_tracker_lookup (self (snd (usc_state_tracker_put_entry st path m))) path
     = Some (i, mkEntry (Some path) m)) /\
  (forall fs inputs h,
     fst (record_paths fs inputs (mkState (usc_state_tracker_new file) h)) = true ->
     List.length
       (entry (self (snd (record_paths fs inputs
                            (mkState (usc_state_tracker_new file) h)))))
     = distinct (map (realpath fs) inputs)).
Proof.
  split; [|split].
  - intros history h. apply run_unique. apply new_unique.
  - intros st path m i e Hl. now apply put_entry_in_place with (e := e).
  - intros fs inputs h Hok.
    set (st0 := mkState (usc_state_tracker_new file) h) in *.
    pose proof (record_paths_paths fs inputs st0 Hok) as Hin.
    destruct (record_paths_unique fs inputs st0 (new_unique file)) as [Hnodup _].
    unfold distinct.
    rewrite <- (length_map ptr). fold (paths (self (snd (record_paths fs inputs st0)))).
    apply Nat.le_antisymm; apply NoDup_incl_length;
      try exact Hnodup; try apply NoDup_nodup; intros x Hx.
    + apply nodup_In. apply Hin in Hx as [Hx|Hx]; [destruct Hx|exact Hx].
    + apply nodup_In in Hx. apply Hin. now right.
Qed.

Lemma paths_are_unique_witness :
  let fs := disk [("/etc/foo", 1000); ("/etc/bar", 7)] (inl ENOENT) in
  let inputs := ["/etc/foo"; "/etc/bar"; "/etc/foo"] in
  let st := snd (record_paths fs inputs (mkState (usc_state_tracker_new status_path) [])) in
  List.length (entry (self st)) = 2%nat /\
  usc_state_tracker_lookup (self (snd (usc_state_tracker_put_entry st "/etc/foo" 1500)))
    "/etc/foo"
  = Some (1%nat, mkEntry (Some "/etc/foo") 1500).
Proof.
  intros fs inputs st.
  destruct (paths_are_unique status_path) as (_ & Hplace & Hcount).
  split.
  - exact (Hcount fs inputs [] eq_refl).
  - exact (proj2 (Hplace st "/etc/foo" 1500 1%nat (mkEntry (Some "/etc/foo") 1000) eq_refl)).
Defined.

(** ** Strings *)

Lemma append_assoc (s1 s2 s3 : string) : ((s1 ++ s2) ++ s3 = s1 ++ (s2 ++ s3))%string.
Proof. induction s1 as [|c s1 IH]; simpl; [reflexivity|now rewrite IH]. Qed.

Lemma append_empty_r (s : string) : (s ++ EmptyString)%string = s.
Proof. induction s as [|c s IH]; simpl; [reflexivity|now rewrite IH]. Qed.

Lemma has_byte_app c s1 s2 :
  has_byte c (s1 ++ s2) = has_byte c s1 || has_byte c s2.
Proof.
  induction s1 as [|a s1 IH]; simpl; [reflexivity|].
  now rewrite IH, orb_assoc.
Qed.

Lemma all_bytes_has_byte f c s :
  all_bytes f s = true -> f c = false -> has_byte c s = false.
Proof.
  intros Hall Hc. induction s as [|a s IH]; simpl in *; [reflexivity|].
  apply andb_prop in Hall as [Ha Hs].
  rewrite (IH Hs), orb_false_r.
  destruct (Ascii.eqb_spec a c) as [->|_]; [congruence|reflexivity].
Qed.

Lemma memchr_app c s r :
  has_byte c s = false -> memchr (s ++ String c r) c = Some (String.length s).
Proof.
  induction s as [|a s IH]; simpl; intros H.
  - now rewrite Ascii.eqb_refl.
  - apply orb_false_iff in H as [Ha Hs]. now rewrite Ha, (IH Hs).
Qed.

Lemma take_app s r : take (String.length s) (s ++ r) = s.
Proof. induction s as [|a s IH]; simpl; [now destruct r|now rewrite IH]. Qed.

Lemma drop_app s c r : drop (S (String.length s)) (s ++ String c r) = r.
Proof. induction s as [|a s IH]; simpl; [reflexivity|exact IH]. Qed.

Lemma c_str_plain s : has_byte NUL s = false -> c_str s = s.
Proof.
  induction s as [|a s IH]; simpl; intros H; [reflexivity|].
  apply orb_false_iff in H as [Ha Hs]. now rewrite Ha, (IH Hs).
Qed.

(** ** ["%ld"] and [strtoll] *)

Lemma uint_digits d : all_bytes isdigit (NilEmpty.string_of_uint d) = true.
Proof. induction d; simpl; [reflexivity|exact IHd ..]. Qed.

Ltac eval_digit :=
  match goal with
  | |- context [isdigit ?c] => change (isdigit c) with true; cbv iota
  end;
  match goal with
  | |- context [digit_value ?c] =>
      let k := eval vm_compute in (digit_value c) in
      change (digit_value c) with k
  end.

Lemma scan_uint_acc d : forall acc,
  scan_digits (NilEmpty.string_of_uint d) (Z.pos acc)
  = (Z.pos (Pos.of_uint_acc d acc), nb_digits d).
Proof.
  induction d; intros acc;
    cbn [NilEmpty.string_of_uint scan_digits Pos.of_uint_acc nb_digits];
    [reflexivity| ..];
    eval_digit;
    match goal with
    | |- context [Pos.of_uint_acc d ?b] =>
        match goal with
        | |- context [scan_digits _ ?a] => replace a with (Z.pos b) by lia
        end
    end; now rewrite IHd.
Qed.

Lemma scan_uint d :
  scan_digits (NilEmpty.string_of_uint d) 0 = (Z.of_N (Pos.of_uint d), nb_digits d).
Proof.
  induction d;
    cbn [NilEmpty.string_of_uint scan_digits Pos.of_uint nb_digits Z.of_N];
    [reflexivity| ..];
    eval_digit;
    match goal with
    | |- context [scan_digits _ ?a] =>
        let k := eval vm_compute in a in change a with k
    end;
    [now rewrite IHd | now rewrite scan_uint_acc ..].
Qed.

Lemma nb_digits_nonnil d : d <> Nil -> exists n, nb_digits d = S n.
Proof. destruct d; [congruence|simpl; eauto ..]. Qed.

Lemma string_of_uint_nonnil d :
  d <> Nil -> NilZero.string_of_uint d = NilEmpty.string_of_uint d.
Proof. destruct d; [congruence|reflexivity ..]. Qed.

(** A positive number in decimal: its digits, the first of them at the
    head of the string. *)
Lemma print_pos p :
  exists c r,
    NilZero.string_of_uint (Pos.to_uint p) = String c r /\
    isdigit c = true /\ all_bytes isdigit r = true /\
    exists n, scan_digits (String c r) 0 = (Z.pos p, S n).
Proof.
  pose proof (Unsigned.to_uint_nonnil p) as Hnn.
  rewrite (string_of_uint_nonnil _ Hnn).
  pose proof (uint_digits (Pos.to_uint p)) as Hall.
  pose proof (scan_uint (Pos.to_uint p)) as Hscan.
  rewrite Unsigned.of_to in Hscan.
  destruct (nb_digits_nonnil _ Hnn) as [n Hn]. rewrite Hn in Hscan.
  destruct (NilEmpty.string_of_uint (Pos.to_uint p)) as [|c r] eqn:Hs.
  - simpl in Hscan. discriminate.
  - simpl in Hall. apply andb_prop in Hall as [Hc Hr].
    exists c, r. repeat split; try assumption. now exists n.
Qed.

Lemma print_ld_cases m :
  exists c r,
    isdigit c = true /\ all_bytes isdigit r = true /\
    (exists n, scan_digits (String c r) 0 = (Z.abs m, S n)) /\
    print_ld m = if m <? 0 then String "-" (String c r) else String c r.
Proof.
  unfold print_ld. destruct m as [|p|p]; simpl.
  - exists "0"%char, EmptyString. repeat split. now exists O.
  - destruct (print_pos p) as (c & r & Hs & Hc & Hr & Hscan).
    exists c, r. now repeat split.
  - destruct (print_pos p) as (c & r & Hs & Hc & Hr & Hscan).
    exists c, r. repeat split; try assumption. now rewrite Hs.
Qed.

Lemma isdigit_numeric c : isdigit c = true -> numeric c = true.
Proof. unfold numeric. now intros ->. Qed.

Lemma digits_numeric s : all_bytes isdigit s = true -> all_bytes numeric s = true.
Proof.
  induction s as [|a s IH]; simpl; [reflexivity|].
  intros H. apply andb_prop in H as [Ha Hs].
  now rewrite (isdigit_numeric _ Ha), (IH Hs).
Qed.

Lemma print_ld_numeric m : all_bytes numeric (print_ld m) = true.
Proof.
  destruct (print_ld_cases m) as (c & r & Hc & Hr & _ & ->).
  destruct (m <? 0); simpl;
    now rewrite (isdigit_numeric _ Hc), (digits_numeric _ Hr).
Qed.

Lemma print_ld_head m : exists c r, print_ld m = String c r /\ numeric c = true.
Proof.
  pose proof (print_ld_numeric m) as H.
  destruct (print_ld m) as [|c r] eqn:Hs.
  - destruct (print_ld_cases m) as (c & r & _ & _ & _ & Heq).
    rewrite Hs in Heq. destruct (m <? 0); discriminate.
  - simpl in H. apply andb_prop in H as [Hc _]. now exists c, r.
Qed.

Lemma isdigit_not c x :
  isdigit c = true -> isdigit x = false -> Ascii.eqb c x = false.
Proof.
  intros Hc Hx. destruct (Ascii.eqb_spec c x) as [->|_]; [congruence|reflexivity].
Qed.

Lemma isdigit_not_space c : isdigit c = true -> isspace c = false.
Proof.
  unfold isdigit, isspace. intros H.
  apply andb_prop in H as [H1 H2].
  apply Nat.leb_le in H1. apply Nat.leb_le in H2.
  apply orb_false_iff. split.
  - apply Nat.eqb_neq. lia.
  - apply andb_false_iff. right. apply Nat.leb_gt. lia.
Qed.

(** [strtoll] reads back what ["%ld"] printed. *)
Lemma strtoll_print_ld m errno :
  LLONG_MIN <= m <= LLONG_MAX ->
  exists off, strtoll (print_ld m) errno = (m, Some off, errno).
Proof.
  intros Hrange.
  destruct (print_ld_cases m) as (c & r & Hc & Hr & (n & Hscan) & ->).
  pose proof (isdigit_not_space c Hc) as Hsp.
  unfold strtoll.
  destruct (Z.ltb_spec m 0) as [Hneg|Hpos].
  - cbn [skip_spaces]. change (isspace "-") with false. cbv iota.
    rewrite Ascii.eqb_refl, Hscan.
    replace (- Z.abs m) with m by lia.
    destruct (Z.ltb_spec m LLONG_MIN); [lia|].
    destruct (Z.ltb_spec LLONG_MAX m); [lia|].
    eauto.
  - cbn [skip_spaces]. rewrite Hsp.
    rewrite (isdigit_not c "-" Hc eq_refl), (isdigit_not c "+" Hc eq_refl), Hscan.
    replace (Z.abs m) with m by lia.
    destruct (Z.ltb_spec m LLONG_MIN); [lia|].
    destruct (Z.ltb_spec LLONG_MAX m); [lia|].
    eauto.
Qed.

(** ** One record line, written and read back *)

Lemma record_line_split m p :
  record_line m p = ((print_ld m ++ String ":" p) ++ String LF EmptyString)%string.
Proof. unfold record_line. now rewrite append_assoc. Qed.

Lemma numeric_no_byte m c : numeric c = false -> has_byte c (print_ld m) = false.
Proof. apply all_bytes_has_byte, print_ld_numeric. Qed.

Lemma record_line_one_line m p :
  plain p = true -> has_byte LF (print_ld m ++ String ":" p) = false.
Proof.
  intros Hp. apply andb_prop in Hp as [_ Hlf]. apply negb_true_iff in Hlf.
  rewrite has_byte_app, (numeric_no_byte m LF eq_refl). simpl. exact Hlf.
Qed.

(** The line of an Entry is split at its first colon, whatever colons
    the path has, and gives back the path and the mtime. *)
Lemma load_line_record fs m p errno st :
  LLONG_MIN <= m <= LLONG_MAX ->
  plain p = true ->
  usc_file_exists fs p = true ->
  load_line fs (record_line m p) errno st
  = let (pushed, st') := usc_state_tracker_put_entry st p m in
    if negb pushed then Break EINVAL st' else Continue errno st'.
Proof.
  intros Hrange Hplain Hexists.
  destruct (print_ld_head m) as (c & r & Hhead & Hc).
  destruct (strtoll_print_ld m errno Hrange) as [off Hparse].
  apply andb_prop in Hplain as [Hnul _]. apply negb_true_iff in Hnul.
  unfold load_line.
  replace (String.length (record_line m p) <? 1)%nat with false
    by (unfold record_line; rewrite Hhead; reflexivity).
  rewrite record_line_split, strip_newline_line.
  replace (is_comment (print_ld m ++ String ":" p)) with false.
  2:{ rewrite Hhead. simpl.
      destruct (Ascii.eqb_spec c "#") as [->|_]; [discriminate|reflexivity]. }
  rewrite (memchr_app ":" (print_ld m) p (numeric_no_byte m ":" eq_refl)).
  replace (String.length (print_ld m) <? 1)%nat with false
    by (rewrite Hhead; reflexivity).
  rewrite drop_app, take_app, (c_str_plain p Hnul).
  rewrite (c_str_plain _ (numeric_no_byte m NUL eq_refl)), Hparse, Hexists.
  reflexivity.
Qed.

(** ** write *)

Lemma write_entries_ok fs chain :
  forall out out',
    write_entries fs chain out = (true, out') ->
    out' = (out ++ join (map line_of (filter (kept fs) chain)))%string.
Proof.
  induction chain as [|e next IH]; simpl; intros out out' H.
  - injection H as <-. now rewrite append_empty_r.
  - unfold kept at 1.
    destruct (ptr e) as [p|] eqn:Hp; [|now apply IH].
    destruct (usc_file_exists fs p); simpl in *; [|now apply IH].
    destruct (fprintf_ok fs (record_line (mtime e) p)); [|discriminate].
    unfold line_of at 1. rewrite Hp, (IH _ _ H).
    apply append_assoc.
Qed.

Lemma getlines_records fs es :
  Forall (fun e => kept fs e = true /\ writable fs e) es ->
  getlines (join (map line_of es)) = map line_of es.
Proof.
  induction 1 as [|e es [Hkept Hw] _ IH]; [reflexivity|].
  destruct (Hw Hkept) as [_ Hplain].
  simpl. unfold line_of at 1 3. unfold kept in Hkept.
  destruct (ptr e) as [p|]; [|discriminate].
  rewrite record_line_split, append_assoc. simpl.
  rewrite getlines_line by (apply record_line_one_line; auto).
  now rewrite IH.
Qed.

(** ** load on what write wrote *)

Lemma set_mtime_lookup_other chain path i e m other :
  lookup_from chain path = Some (i, e) -> other <> path ->
  lookup_from (set_mtime chain i m) other = lookup_from chain other.
Proof.
  intros Hl Hne. revert i Hl.
  induction chain as [|e0 next IH]; simpl; intros i Hl; [discriminate|].
  destruct (entry_matches e0 path) eqn:Hm.
  - injection Hl as <- <-. simpl.
    unfold entry_matches in *. simpl.
    destruct (ptr e0) as [p0|]; [|discriminate].
    apply String.eqb_eq in Hm. subst p0.
    replace (String.eqb path other) with false; [reflexivity|].
    symmetry. apply String.eqb_neq. congruence.
  - destruct (lookup_from next path) as [[j found0]|]; [|discriminate].
    injection Hl as <- <-. simpl.
    now rewrite (IH j eq_refl).
Qed.

Lemma entry_matches_new p m other :
  other <> p -> entry_matches (mkEntry (Some p) m) other = false.
Proof. intros H. unfold entry_matches; simpl. apply String.eqb_neq. congruence. Qed.

(** With memory left, a put succeeds: the path then has an Entry with
    the mtime put, and the Entry of any other path is what it was. *)
Lemma put_entry_plentiful st p m :
  heap st = [] ->
  exists st',
    usc_state_tracker_put_entry st p m = (true, st') /\
    heap st' = [] /\
    found (self st') p = Some (mkEntry (Some p) m) /\
    forall other, other <> p -> found (self st') other = found (self st) other.
Proof.
  intros Hheap. unfold usc_state_tracker_put_entry, found, usc_state_tracker_lookup.
  destruct (lookup_from (entry (self st)) p) as [[i e]|] eqn:Hl.
  - eexists. split; [reflexivity|]. simpl. split; [exact Hheap|]. split.
    + now rewrite (set_mtime_lookup _ _ _ _ m Hl).
    + intros other Hne. now rewrite (set_mtime_lookup_other _ _ _ _ m other Hl Hne).
  - rewrite Hheap. simpl.
    eexists. split; [reflexivity|]. simpl. split; [reflexivity|]. split.
    + unfold entry_matches; simpl. now rewrite String.eqb_refl.
    + intros other Hne. rewrite (entry_matches_new p m other Hne).
      now destruct (lookup_from (entry (self st)) other) as [[j f]|].
Qed.


Lemma NoDup_map_filter {A B : Type} (f : A -> B) (g : A -> bool) l :
  NoDup (map f l) -> NoDup (map f (filter g l)).
Proof.
  induction l as [|a l IH]; simpl; intros H; [constructor|].
  apply NoDup_cons_iff in H as [Hout H].
  destruct (g a); simpl; [|now apply IH].
  constructor; [|now apply IH].
  intros Hin. apply Hout.
  apply in_map_iff in Hin as (x & <- & Hx).
  apply filter_In in Hx as [Hx _]. now apply in_map.
Qed.

Lemma load_line_header fs errno st : load_line fs header errno st = Continue errno st.
Proof. reflexivity. Qed.

Lemma getlines_header rest : getlines (header ++ rest) = header :: getlines rest.
Proof.
  unfold header. rewrite append_assoc. simpl append at 2.
  now rewrite getlines_line by reflexivity.
Qed.



(** ** load: what the parse loop lets through *)

(** C3: a blank line is not skipped.  The test [read < 1] comes before
    the newline is stripped, where [read] is 1 for a blank line, so it
    never skips anything: wherever a blank line stands in the state
    file, it goes on to be reported as a line without colon, and load
    returns failure with the tracker emptied. *)
Theorem load_blank_line_is_fatal fs st before rest :
  at_line_start before = true ->
  fopen_r fs (state_file (self st)) = inr (before ++ String LF rest) ->
  (forall errno st0,
     load_line fs (String LF EmptyString) errno st0 = Break EINVAL st0) /\
  fst (usc_state_tracker_load fs st) = false /\
  entry (self (snd (usc_state_tracker_load fs st))) = [].
Proof.
  intros Hstart Hopen.
  split; [reflexivity|].
  assert (Hfail : fst (usc_state_tracker_load fs st) = false).
  { apply load_fatal_line with (1 := Hopen) (bfr := String LF EmptyString);
      [|reflexivity].
    rewrite (getlines_app before _ Hstart). apply in_or_app. right.
    rewrite getlines_cons. now left. }
  split; [exact Hfail|].
  now apply load_failure_clears with (1 := Hopen).
Qed.

Lemma load_blank_line_is_fatal_witness :
  let fs body := disk [("/etc/foo", 1000)] (inr body) in
  let record := ("1000:/etc/foo" ++ String LF EmptyString)%string in
  let blank := String LF EmptyString in
  usc_state_tracker_load (fs (header ++ record)) (tracking [])
  = (true, tracking [mkEntry (Some "/etc/foo") 1000]) /\
  usc_state_tracker_load (fs (header ++ record ++ blank)) (tracking [])
  = (false, tracking []) /\
  fst (usc_state_tracker_load (fs (header ++ record ++ blank)) (tracking [])) = false /\
  entry (self (snd (usc_state_tracker_load (fs (header ++ record ++ blank))
                      (tracking [])))) = [].
Proof.
  intros fs record blank.
  split; [reflexivity|split; [reflexivity|]].
  exact (proj2 (load_blank_line_is_fatal
                  (fs (header ++ record ++ blank)%string)
                  (tracking []) (header ++ record)%string EmptyString
                  eq_refl eq_refl)).
Defined.

(** What load makes of a state file of one line that the loop lets
    through with mtime [t] and path [path]. *)
Lemma load_one_line fs st contents bfr t path :
  fopen_r fs (state_file (self st)) = inr contents ->
  getlines contents = [bfr] ->
  (forall errno st0,
     load_line fs bfr errno st0
     = if negb (usc_file_exists fs path) then Continue 0 st0
       else let (pushed, st') := usc_state_tracker_put_entry st0 path t in
            if negb pushed then Break EINVAL st' else Continue errno st') ->
  heap st = [] ->
  fst (usc_state_tracker_load fs st) = true /\
  (usc_file_exists fs path = true ->
   found (self (snd (usc_state_tracker_load fs st))) path
   = Some (mkEntry (Some path) t)) /\
  (usc_file_exists fs path = false -> snd (usc_state_tracker_load fs st) = st).
Proof.
  intros Hopen Hlines Hline Hheap.
  unfold usc_state_tracker_load. rewrite Hopen, Hlines.
  cbn [load_loop]. rewrite Hline.
  destruct (usc_file_exists fs path); simpl.
  - destruct (put_entry_plentiful st path t Hheap) as (st' & -> & _ & Hfound & _).
    simpl. split; [reflexivity|]. split; [now intros _|discriminate].
  - split; [reflexivity|]. split; [discriminate|reflexivity].
Qed.

(** C4: a mtime field without a digit is let through.  [strtoll] always
    hands back a [part], so the test for an invalid timestamp never
    fires: on any file system and with memory left, the state file of
    scenario S6 loads with success, and /x, if it exists, gets an Entry
    with mtime 0. *)
Theorem load_accepts_malformed_mtime fs st :
  fopen_r fs (state_file (self st)) = inr (file_of_lines ["notanumber:/x"]) ->
  heap st = [] ->
  strtoll "notanumber" 0 = (0, Some O, 0) /\
  fst (usc_state_tracker_load fs st) = true /\
  (usc_file_exists fs "/x" = true ->
   found (self (snd (usc_state_tracker_load fs st))) "/x"
   = Some (mkEntry (Some "/x") 0)).
Proof.
  intros Hopen Hheap.
  split; [reflexivity|].
  destruct (load_one_line fs st _ _ 0 "/x" Hopen eq_refl (fun _ _ => eq_refl) Hheap)
    as (Hok & Hput & _).
  now split.
Qed.

Lemma load_accepts_malformed_mtime_witness :
  let fs body := disk [("/etc/foo", 1000); ("/x", 7)] (inr body) in
  usc_state_tracker_load (fs (file_of_lines ["notanumber:/x"])) (tracking [])
  = (true, tracking [mkEntry (Some "/x") 0]) /\
  usc_state_tracker_load (fs (file_of_lines ["1000:/etc/foo"; "notanumber:/x"]))
    (tracking [])
  = (true, tracking [mkEntry (Some "/x") 0; mkEntry (Some "/etc/foo") 1000]) /\
  fst (usc_state_tracker_load (fs (file_of_lines ["notanumber:/x"])) (tracking []))
  = true.
Proof.
  intros fs.
  split; [reflexivity|split; [reflexivity|]].
  exact (proj1 (proj2 (load_accepts_malformed_mtime
                         (fs (file_of_lines ["notanumber:/x"])) (tracking [])
                         eq_refl eq_refl))).
Defined.

(** C5: an empty path field is let through.  The test behind "Missing
    filename in line" looks at the bytes before the colon, so the line
    [123:] passes it: on any file system and with memory left, load
    returns success, and when the empty path is no file, which drops the
    line as one of a file that is gone, the program state is untouched. *)
Theorem load_accepts_empty_path fs st :
  fopen_r fs (state_file (self st)) = inr (file_of_lines ["123:"]) ->
  heap st = [] ->
  fatal_line ("123:" ++ String LF EmptyString) = false /\
  fst (usc_state_tracker_load fs st) = true /\
  (usc_file_exists fs EmptyString = false ->
   snd (usc_state_tracker_load fs st) = st).
Proof.
  intros Hopen Hheap.
  split; [reflexivity|].
  destruct (load_one_line fs st _ _ 123 EmptyString Hopen eq_refl
              (fun _ _ => eq_refl) Hheap) as (Hok & _ & Hdrop).
  now split.
Qed.

Lemma load_accepts_empty_path_witness :
  let fs := disk [("/etc/foo", 1000)] (inr (file_of_lines ["123:"])) in
  let st := tracking [mkEntry (Some "/etc/foo") 1000] in
  usc_state_tracker_load fs st = (true, st) /\
  fst (usc_state_tracker_load fs st) = true /\
  snd (usc_state_tracker_load fs st) = st.
Proof.
  intros fs st.
  split; [reflexivity|].
  destruct (load_accepts_empty_path fs st eq_refl eq_refl) as (_ & Hok & Hdrop).
  split; [exact Hok|exact (Hdrop eq_refl)].
Defined.


(** * Further properties of the operations *)

(** ** Lookup and put *)

Lemma entry_matches_iff e path : entry_matches e path = true <-> ptr e = Some path.
Proof.
  unfold entry_matches. destruct (ptr e) as [p|]; [|split; discriminate].
  rewrite String.eqb_eq. split; congruence.
Qed.

(** X1: lookup finds the first node of the chain whose path is the one
    asked for, and finds none exactly when no node has that path. *)
Theorem lookup_first_match t path :
  (forall i e,
     usc_state_tracker_lookup t path = Some (i, e) ->
     nth_error (entry t) i = Some e /\
     ptr e = Some path /\
     ~ In (Some path) (map ptr (firstn i (entry t)))) /\
  (usc_state_tracker_lookup t path = None <-> ~ In (Some path) (paths t)).
Proof.
  unfold usc_state_tracker_lookup, paths. split; [|apply lookup_from_none].
  induction (entry t) as [|e0 next IH]; simpl; intros i e H; [discriminate|].
  destruct (entry_matches e0 path) eqn:Hm.
  - injection H as <- <-. apply entry_matches_iff in Hm. simpl. tauto.
  - destruct (lookup_from next path) as [[j f]|]; [|discriminate].
    injection H as <- <-.
    destruct (IH j f eq_refl) as (Hnth & Hptr & Hfirst).
    simpl. repeat split; try assumption.
    intros [Hhead|Hin]; [|contradiction].
    apply entry_matches_iff in Hhead. congruence.
Qed.

Lemma lookup_first_match_witness :
  let t := mkTracker status_path
             [mkEntry (Some "/a") 1; mkEntry (Some "/b") 2; mkEntry (Some "/b") 3] in
  nth_error (entry t) 1 = Some (mkEntry (Some "/b") 2) /\
  usc_state_tracker_lookup t "/c" = None.
Proof.
  intros t.
  destruct (lookup_first_match t "/b") as [Hsome _].
  destruct (lookup_first_match t "/c") as [_ Hnone].
  split.
  - exact (proj1 (Hsome 1%nat (mkEntry (Some "/b") 2) eq_refl)).
  - apply Hnone. simpl. intros [H|[H|[H|[]]]]; discriminate.
Defined.

Lemma put_entry_frame st p m other :
  other <> p ->
  found (self (snd (usc_state_tracker_put_entry st p m))) other = found (self st) other.
Proof.
  intros Hne. unfold usc_state_tracker_put_entry, found, usc_state_tracker_lookup.
  destruct (lookup_from (entry (self st)) p) as [[i e]|] eqn:Hl; simpl.
  - now rewrite (set_mtime_lookup_other _ _ _ _ m other Hl Hne).
  - destruct (malloc (heap st)) as [[|] h1]; simpl; [|reflexivity].
    destruct (malloc h1) as [[|] h2]; simpl; [|reflexivity].
    rewrite (entry_matches_new p m other Hne).
    now destruct (lookup_from (entry (self st)) other) as [[j f]|].
Qed.

Lemma put_entry_found st p m :
  fst (usc_state_tracker_put_entry st p m) = true ->
  found (self (snd (usc_state_tracker_put_entry st p m))) p
  = Some (mkEntry (Some p) m).
Proof.
  unfold usc_state_tracker_put_entry, found, usc_state_tracker_lookup.
  destruct (lookup_from (entry (self st)) p) as [[i e]|] eqn:Hl; simpl.
  - intros _. now rewrite (set_mtime_lookup _ _ _ _ m Hl).
  - destruct (malloc (heap st)) as [[|] h1]; simpl; [|discriminate].
    destruct (malloc h1) as [[|] h2]; simpl; [|discriminate].
    intros _. unfold entry_matches; simpl. now rewrite String.eqb_refl.
Qed.

Lemma set_mtime_length chain i m : List.length (set_mtime chain i m) = List.length chain.
Proof.
  revert i; induction chain as [|e next IH]; intros [|k]; simpl; try reflexivity.
  now rewrite IH.
Qed.

(** X2: a put that succeeds leaves the path with an Entry of the mtime
    put, leaves the Entry of every other path as it was, and makes the
    chain one node longer exactly when the path had no Entry. *)
Theorem put_entry_then_lookup st p m :
  fst (usc_state_tracker_put_entry st p m) = true ->
  let st' := snd (usc_state_tracker_put_entry st p m) in
  found (self st') p = Some (mkEntry (Some p) m) /\
  (forall other, other <> p -> found (self st') other = found (self st) other) /\
  List.length (entry (self st'))
  = match found (self st) p with
    | Some _ => List.length (entry (self st))
    | None => S (List.length (entry (self st)))
    end.
Proof.
  intros Hok st'. split; [now apply put_entry_found|].
  split; [intros other Hne; now apply put_entry_frame|].
  subst st'. revert Hok.
  unfold usc_state_tracker_put_entry, found, usc_state_tracker_lookup.
  destruct (lookup_from (entry (self st)) p) as [[i e]|]; simpl.
  - intros _. apply set_mtime_length.
  - destruct (malloc (heap st)) as [[|] h1]; simpl; [|discriminate].
    destruct (malloc h1) as [[|] h2]; simpl; [reflexivity|discriminate].
Qed.

Lemma put_entry_then_lookup_witness :
  let st := tracking [mkEntry (Some "/a") 1] in
  found (self (snd (usc_state_tracker_put_entry st "/b" 9))) "/b"
  = Some (mkEntry (Some "/b") 9) /\
  found (self (snd (usc_state_tracker_put_entry st "/b" 9))) "/a"
  = Some (mkEntry (Some "/a") 1).
Proof.
  intros st.
  destruct (put_entry_then_lookup st "/b" 9 eq_refl) as (Hsame & Hother & _).
  split; [exact Hsame|].
  rewrite (Hother "/a"); [reflexivity|discriminate].
Defined.

(** ** record-path *)

Lemma push_path_success fs st path :
  fst (usc_state_tracker_push_path fs st path) = true ->
  exists dup m,
    realpath fs path = Some dup /\
    stat fs dup = Some m /\
    found (self (snd (usc_state_tracker_push_path fs st path))) dup
    = Some (mkEntry (Some dup) m) /\
    forall other,
      other <> dup ->
      found (self (snd (usc_state_tracker_push_path fs st path))) other
      = found (self st) other.
Proof.
  unfold usc_state_tracker_push_path.
  destruct (realpath fs path) as [dup|]; [|discriminate].
  destruct (stat fs dup) as [m|] eqn:Hstat; [|discriminate].
  intros Hok. exists dup, m.
  split; [reflexivity|]. split; [exact Hstat|]. split.
  - now apply put_entry_found.
  - intros other Hne. now apply put_entry_frame.
Qed.

(** X3: a record-path that succeeds has canonicalized its input and
    read the mtime of the canonical path; the tracker then has that
    mtime under the canonical path, and the Entry of every other path
    is as it was. *)
Theorem push_path_records_canonical fs st path :
  fst (usc_state_tracker_push_path fs st path) = true ->
  exists dup m,
    realpath fs path = Some dup /\
    stat fs dup = Some m /\
    found (self (snd (usc_state_tracker_push_path fs st path))) dup
    = Some (mkEntry (Some dup) m) /\
    forall other,
      other <> dup ->
      found (self (snd (usc_state_tracker_push_path fs st path))) other
      = found (self st) other.
Proof. apply push_path_success. Qed.

Lemma push_path_records_canonical_witness :
  let fs := disk [("/etc/foo", 1000)] (inl ENOENT) in
  exists dup m,
    realpath fs "/etc/foo" = Some dup /\
    stat fs dup = Some m /\
    found (self (snd (usc_state_tracker_push_path fs (tracking []) "/etc/foo"))) dup
    = Some (mkEntry (Some dup) m).
Proof.
  intros fs.
  destruct (push_path_records_canonical fs (tracking []) "/etc/foo" eq_refl)
    as (dup & m & Hc & Hs & Hf & _).
  now exists dup, m.
Defined.

Lemma set_mtime_same chain path i e :
  lookup_from chain path = Some (i, e) -> set_mtime chain i (mtime e) = chain.
Proof.
  revert i; induction chain as [|e0 next IH]; simpl; intros i H; [discriminate|].
  destruct (entry_matches e0 path).
  - injection H as <- <-. now destruct e0.
  - destruct (lookup_from next path) as [[j f]|]; [|discriminate].
    injection H as <- <-. simpl. now rewrite (IH j eq_refl).
Qed.

(** X4: record-path is idempotent: after a record-path that succeeded,
    the same call on the same file system succeeds again, takes no
    memory and leaves the program state as it is. *)
Theorem push_path_idempotent fs st path :
  fst (usc_state_tracker_push_path fs st path) = true ->
  let st' := snd (usc_state_tracker_push_path fs st path) in
  usc_state_tracker_push_path fs st' path = (true, st').
Proof.
  intros Hok st'.
  destruct (push_path_success fs st path Hok)
    as (dup & m & Hc & Hs & Hfound & _).
  fold st' in Hfound.
  unfold usc_state_tracker_push_path at 1. rewrite Hc, Hs.
  unfold usc_state_tracker_put_entry.
  unfold found in Hfound.
  unfold usc_state_tracker_lookup in *.
  destruct (lookup_from (entry (self st')) dup) as [[i e]|] eqn:Hl; [|discriminate].
  injection Hfound as ->.
  rewrite (set_mtime_same _ _ _ _ Hl : set_mtime _ i m = _).
  now destruct st' as [[file chain] h].
Qed.

Lemma push_path_idempotent_witness :
  let fs := disk [("/etc/foo", 1000)] (inl ENOENT) in
  let st' := snd (usc_state_tracker_push_path fs (tracking []) "/etc/foo") in
  usc_state_tracker_push_path fs st' "/etc/foo" = (true, st').
Proof.
  intros fs.
  exact (push_path_idempotent fs (tracking []) "/etc/foo" eq_refl).
Defined.

(** ** record-path, then needs-update *)

(** X5: after a record-path that succeeded, a needs-update query without
    force on a later file system, where the input still canonicalizes
    to the same path and its mtime can be read, answers true exactly
    when that mtime is above the one record-path read. *)
Theorem needs_update_after_push fs fs' st path dup m m' :
  fst (usc_state_tracker_push_path fs st path) = true ->
  realpath fs path = Some dup ->
  stat fs dup = Some m ->
  realpath fs' path = Some dup ->
  usc_file_mtime fs' dup = Some m' ->
  fst (usc_state_tracker_needs_update fs'
         (snd (usc_state_tracker_push_path fs st path)) path false)
  = (m <? m').
Proof.
  intros Hok Hc Hs Hc' Hm'.
  destruct (push_path_success fs st path Hok)
    as (dup0 & m0 & Hc0 & Hs0 & Hfound & _).
  rewrite Hc in Hc0. injection Hc0 as <-.
  rewrite Hs in Hs0. injection Hs0 as <-.
  unfold usc_state_tracker_needs_update. rewrite Hc'.
  unfold found in Hfound.
  destruct (usc_state_tracker_lookup _ dup) as [[i e]|]; [|discriminate].
  injection Hfound as ->. rewrite Hm'. simpl.
  now destruct (m <? m').
Qed.

Lemma needs_update_after_push_witness :
  let fs := disk [("/etc/foo", 1000)] (inl ENOENT) in
  let later := disk [("/etc/foo", 1500)] (inl ENOENT) in
  let st' := snd (usc_state_tracker_push_path fs (tracking []) "/etc/foo") in
  fst (usc_state_tracker_needs_update fs st' "/etc/foo" false) = false /\
  fst (usc_state_tracker_needs_update later st' "/etc/foo" false) = true.
Proof.
  intros fs later st'. split.
  - exact (needs_update_after_push fs fs (tracking []) "/etc/foo" "/etc/foo" 1000 1000
             eq_refl eq_refl eq_refl eq_refl eq_refl).
  - exact (needs_update_after_push fs later (tracking []) "/etc/foo" "/etc/foo" 1000 1500
             eq_refl eq_refl eq_refl eq_refl eq_refl).
Defined.

(** X6: needs-update answers false in two cases only: the input does
    not canonicalize, or force is off and the tracker has an Entry for
    the canonical path whose mtime is not below the one on disk. *)
Theorem needs_update_false_only fs st path force :
  fst (usc_state_tracker_needs_update fs st path force) = false ->
  realpath fs path = None \/
  (force = false /\
   exists real e m,
     realpath fs path = Some real /\
     found (self st) real = Some e /\
     usc_file_mtime fs real = Some m /\
     m <= mtime e).
Proof.
  unfold usc_state_tracker_needs_update, found.
  destruct (realpath fs path) as [real|]; [|now left].
  destruct (usc_state_tracker_lookup (self st) real) as [[i e]|] eqn:Hl;
    [|discriminate].
  destruct (usc_file_mtime fs real) as [m|] eqn:Hm; [|discriminate].
  destruct force; [discriminate|].
  destruct (Z.ltb_spec (mtime e) m) as [|Hle]; [discriminate|].
  intros _. right. split; [reflexivity|].
  exists real, e, m. split; [reflexivity|]. split; [now rewrite Hl|].
  split; [exact Hm|exact Hle].
Qed.

Lemma needs_update_false_only_witness :
  let fs := disk [("/etc/foo", 1000)] (inl ENOENT) in
  let st := tracking [mkEntry (Some "/etc/foo") 1000] in
  realpath fs "/etc/foo" = None \/
  (false = false /\
   exists real e m,
     realpath fs "/etc/foo" = Some real /\
     found (self st) real = Some e /\
     usc_file_mtime fs real = Some m /\
     m <= mtime e).
Proof.
  intros fs st.
  exact (needs_update_false_only fs st "/etc/foo" false eq_refl).
Defined.

(** ** write: what gets into the file *)

Lemma write_entries_spec fs chain :
  forall out,
    fst (write_entries fs chain out)
    = forallb (fun e => fprintf_ok fs (line_of e)) (filter (kept fs) chain) /\
    exists n,
      snd (write_entries fs chain out)
      = (out ++ join (map line_of (firstn n (filter (kept fs) chain))))%string.
Proof.
  induction chain as [|e next IH]; intros out.
  - split; [reflexivity|]. exists O. simpl. now rewrite append_empty_r.
  - cbn [write_entries filter].
    change (kept fs e)
      with (match ptr e with Some p => usc_file_exists fs p | None => false end).
    destruct (ptr e) as [p|] eqn:Hp; [|apply IH].
    destruct (usc_file_exists fs p); cbn [negb]; [|apply IH].
    cbn [forallb]. unfold line_of at 1. rewrite Hp.
    destruct (fprintf_ok fs (record_line (mtime e) p)); cbn [andb].
    + destruct (IH (out ++ record_line (mtime e) p)%string) as (Hok & n & Hout).
      split; [exact Hok|]. exists (S n). rewrite Hout.
      cbn [firstn map join fold_right]. unfold line_of at 2. rewrite Hp.
      apply append_assoc.
    + split; [reflexivity|]. exists O. simpl. now rewrite append_empty_r.
Qed.

Lemma write_is_projection_lines dir fs t contents :
  usc_state_tracker_write dir fs t = (true, Some contents) ->
  contents
  = ((if fprintf_ok fs header then header else EmptyString)
     ++ join (map line_of (filter (kept fs) (entry t))))%string.
Proof.
  unfold usc_state_tracker_write.
  destruct (negb (usc_file_exists fs dir) && negb (mkdir fs dir)); [discriminate|].
  destruct (negb (fopen_w fs (state_file t))); [discriminate|].
  destruct (write_entries fs (entry t) _) as [ok out] eqn:Hout.
  intros [= -> <-]. now apply write_entries_ok.
Qed.

(** X7: the text a write that succeeds prints is the header line, when
    it could be printed, and then the line of every Entry whose path
    exists, in the order of the chain, and nothing else: Entries without
    a path on disk get no line.  The state file holds what the disk
    keeps of that text: the text itself on a disk that takes it all. *)
Theorem write_is_projection dir fs t printed :
  usc_state_tracker_write dir fs t = (true, Some printed) ->
  printed
  = (written_header fs ++ join (map line_of (filter (kept fs) (entry t))))%string /\
  (forall disk, state_file_after_write dir fs disk t = Some (disk printed)) /\
  state_file_after_write dir fs working_disk t
  = Some (written_header fs ++ join (map line_of (filter (kept fs) (entry t))))%string.
Proof.
  intros Hwrite.
  pose proof (write_is_projection_lines dir fs t printed Hwrite) as Hprinted.
  fold (written_header fs) in Hprinted.
  unfold state_file_after_write. rewrite Hwrite. simpl.
  split; [exact Hprinted|]. split; [reflexivity|].
  unfold working_disk. now rewrite Hprinted.
Qed.

Lemma write_is_projection_witness :
  let fs := disk [("/etc/foo", 1000); ("/x", 7)] (inl ENOENT) in
  let t := mkTracker status_path
             [mkEntry (Some "/etc/foo") 1000; mkEntry (Some "/gone") 3;
              mkEntry (Some "/x") (-7)] in
  let printed := (header ++ file_of_lines ["1000:/etc/foo"; "-7:/x"])%string in
  usc_state_tracker_write "/var/lib/usysconf" fs t = (true, Some printed) /\
  state_file_after_write "/var/lib/usysconf" fs working_disk t = Some printed /\
  state_file_after_write "/var/lib/usysconf" fs full_disk t = Some EmptyString.
Proof.
  intros fs t printed.
  assert (Hwrite : usc_state_tracker_write "/var/lib/usysconf" fs t
                   = (true, Some printed)) by reflexivity.
  destruct (write_is_projection "/var/lib/usysconf" fs t printed Hwrite)
    as (_ & Hdisk & Hworking).
  split; [exact Hwrite|]. split; [exact Hworking|exact (Hdisk full_disk)].
Defined.

Lemma forallb_false {A : Type} (f : A -> bool) l :
  forallb f l = false <-> exists x, In x l /\ f x = false.
Proof.
  induction l as [|a l IH]; simpl.
  - split; [discriminate|intros (x & [] & _)].
  - rewrite andb_false_iff, IH. split.
    + intros [Ha|(x & Hx & Hf)]; [exists a; auto|exists x; auto].
    + intros (x & [<-|Hx] & Hf); [now left|right; now exists x].
Qed.

(** X8: write returns failure for three reasons and no other: the
    tracking directory is missing and cannot be made, the state file
    cannot be opened, or the [fprintf] of the line of an Entry whose
    path exists fails.  In the first two cases no stream is opened and
    the state file is not touched. *)
Theorem write_failure dir fs t :
  (fst (usc_state_tracker_write dir fs t) = false <->
     (usc_file_exists fs dir = false /\ mkdir fs dir = false) \/
     fopen_w fs (state_file t) = false \/
     exists e, In e (entry t) /\ kept fs e = true /\
               fprintf_ok fs (line_of e) = false) /\
  ((usc_file_exists fs dir = false /\ mkdir fs dir = false) \/
   fopen_w fs (state_file t) = false ->
     usc_state_tracker_write dir fs t = (false, None) /\
     forall disk, state_file_after_write dir fs disk t = None).
Proof.
  unfold state_file_after_write, usc_state_tracker_write.
  destruct (write_entries_spec fs (entry t)
              (if fprintf_ok fs header then header else EmptyString))
    as (Hok & n & Hout).
  destruct (write_entries fs (entry t) _) as [ok out]. simpl in Hok, Hout.
  destruct (usc_file_exists fs dir) eqn:Hdir, (mkdir fs dir) eqn:Hmk,
    (fopen_w fs (state_file t)) eqn:Hopen; simpl;
    try (split; [split; [tauto|reflexivity]|now split]).
  all: split; [|intros [[? ?]|?]; discriminate].
  all: rewrite Hok, forallb_false; split.
  all: try (intros (e & He & Hf); right; right; exists e;
            apply filter_In in He as [He Hk]; now repeat split).
  all: intros [[? ?]|[?|(e & He & Hk & Hf)]]; try discriminate;
    exists e; split; [apply filter_In; now split|exact Hf].
Qed.

Lemma write_failure_witness :
  let t := mkTracker status_path [mkEntry (Some "/etc/foo") 1000] in
  let fs := mkFS (fun p => Some p) (fun _ => Some 1000) (fun _ => true)
                 (fun _ => Some 1000) (fun _ => inl ENOENT)
                 (fun _ => true) (fun _ => false) (fun _ => true) in
  usc_state_tracker_write "/var/lib/usysconf" fs t = (false, None) /\
  state_file_after_write "/var/lib/usysconf" fs working_disk t = None.
Proof.
  intros t fs.
  destruct (proj2 (write_failure "/var/lib/usysconf" fs t) (or_intror eq_refl))
    as [Hfail Hfile].
  split; [exact Hfail|exact (Hfile working_disk)].
Defined.

(** ** load: what it does to the tracker *)

Lemma put_entry_paths_cases st p m :
  paths (self (snd (usc_state_tracker_put_entry st p m))) = paths (self st) \/
  paths (self (snd (usc_state_tracker_put_entry st p m))) = Some p :: paths (self st).
Proof.
  unfold usc_state_tracker_put_entry, usc_state_tracker_lookup, paths.
  destruct (lookup_from (entry (self st)) p) as [[i e]|]; simpl.
  - left. apply set_mtime_paths.
  - destruct (malloc (heap st)) as [[|] h1]; simpl; [|now left].
    destruct (malloc h1) as [[|] h2]; simpl; [now right|now left].
Qed.

(** A turn of the loop leaves the state alone, or puts the path field of
    its line, which exists on disk. *)
Lemma load_line_state fs bfr errno st :
  ctl_state (load_line fs bfr errno st) = st \/
  exists p t,
    line_path bfr = Some p /\ usc_file_exists fs p = true /\
    ctl_state (load_line fs bfr errno st) = snd (usc_state_tracker_put_entry st p t).
Proof.
  unfold load_line, line_path.
  destruct (String.length bfr <? 1)%nat; [now left|].
  destruct (is_comment (strip_newline bfr)); [now left|].
  destruct (memchr (strip_newline bfr) ":") as [c|]; [|now left].
  destruct (c <? 1)%nat; [now left|].
  destruct (strtoll _ errno) as [[t part] e1].
  destruct part as [off|]; [|now left].
  destruct (usc_file_exists fs _) eqn:Hexists; simpl; [|now left].
  right. exists (c_str (drop (S c) (strip_newline bfr))), t.
  split; [reflexivity|]. split; [exact Hexists|].
  now destruct (usc_state_tracker_put_entry st _ t) as [[|] st1].
Qed.

Lemma load_loop_steps fs (R : State -> State -> Prop) lines :
  (forall st, R st st) ->
  (forall a b c, R a b -> R b c -> R a c) ->
  (forall st bfr p t,
     In bfr lines -> line_path bfr = Some p -> usc_file_exists fs p = true ->
     R st (snd (usc_state_tracker_put_entry st p t))) ->
  forall errno st, R st (snd (load_loop fs lines errno st)).
Proof.
  intros Hrefl Htrans.
  induction lines as [|l rest IH]; intros Hput errno st; [apply Hrefl|].
  assert (Hstep : R st (ctl_state (load_line fs l errno st))).
  { destruct (load_line_state fs l errno st) as [->|(p & t & Hp & He & ->)];
      [apply Hrefl|].
    apply (Hput st l p t); auto. now left. }
  cbn [load_loop].
  destruct (load_line fs l errno st) as [e1 st1|e1 st1]; simpl in *; [|exact Hstep].
  apply Htrans with st1; [exact Hstep|].
  apply IH. intros st0 bfr p t Hin. apply Hput. now right.
Qed.

Lemma load_success_state fs st contents :
  fopen_r fs (state_file (self st)) = inr contents ->
  fst (usc_state_tracker_load fs st) = true ->
  snd (usc_state_tracker_load fs st) = snd (load_loop fs (getlines contents) 0 st).
Proof.
  intros Hopen. unfold usc_state_tracker_load. rewrite Hopen.
  destruct (load_loop fs (getlines contents) 0 st) as [e st1].
  now destruct (e =? 0).
Qed.

Lemma load_unopened_state fs st errno :
  fopen_r fs (state_file (self st)) = inl errno ->
  snd (usc_state_tracker_load fs st) = st.
Proof.
  intros Hopen. unfold usc_state_tracker_load. rewrite Hopen.
  now destruct (errno =? ENOENT).
Qed.

(** X9: a load that returns success has removed no Entry: every path
    the tracker had, it still has. *)
Theorem load_keeps_paths fs st :
  fst (usc_state_tracker_load fs st) = true ->
  incl (paths (self st)) (paths (self (snd (usc_state_tracker_load fs st)))).
Proof.
  intros Hok.
  destruct (fopen_r fs (state_file (self st))) as [errno|contents] eqn:Hopen.
  - rewrite (load_unopened_state fs st errno Hopen). apply incl_refl.
  - rewrite (load_success_state fs st contents Hopen Hok).
    apply (load_loop_steps fs
             (fun a b => incl (paths (self a)) (paths (self b)))).
    + intros a. apply incl_refl.
    + intros a b c. apply incl_tran.
    + intros a bfr p t _ _ _.
      destruct (put_entry_paths_cases a p t) as [-> | ->];
        [apply incl_refl|apply incl_tl, incl_refl].
Qed.

Lemma load_keeps_paths_witness :
  let fs := disk [("/etc/foo", 1000)] (inr (file_of_lines ["1000:/etc/foo"])) in
  let st := tracking [mkEntry (Some "/etc/bar") 5] in
  incl (paths (self st)) (paths (self (snd (usc_state_tracker_load fs st)))).
Proof.
  intros fs st. exact (load_keeps_paths fs st eq_refl).
Defined.

(** X10: load makes no Entry for a path that is not on disk: a path the
    tracker has after load was there before, or exists. *)
Theorem load_adds_existing_paths_only fs st p :
  In (Some p) (paths (self (snd (usc_state_tracker_load fs st)))) ->
  In (Some p) (paths (self st)) \/ usc_file_exists fs p = true.
Proof.
  assert (Hloop : forall lines errno,
             In (Some p) (paths (self (snd (load_loop fs lines errno st)))) ->
             In (Some p) (paths (self st)) \/ usc_file_exists fs p = true).
  { intros lines errno.
    apply (load_loop_steps fs
             (fun a b => In (Some p) (paths (self b)) ->
                         In (Some p) (paths (self a)) \/ usc_file_exists fs p = true)).
    - intros a. now left.
    - intros a b c Hab Hbc Hc.
      destruct (Hbc Hc) as [Hb|He]; [now apply Hab|now right].
    - intros a bfr q t _ _ Hq.
      destruct (put_entry_paths_cases a q t) as [-> | ->]; [now left|].
      intros [[= <-]|Hin]; [now right|now left]. }
  unfold usc_state_tracker_load.
  destruct (fopen_r fs (state_file (self st))) as [errno|contents].
  - destruct (errno =? ENOENT); now left.
  - specialize (Hloop (getlines contents) 0).
    destruct (load_loop fs (getlines contents) 0 st) as [e st1].
    destruct (e =? 0); simpl in *; [exact Hloop|intros []].
Qed.

Lemma load_adds_existing_paths_only_witness :
  let fs := disk [("/etc/foo", 1000)]
              (inr (file_of_lines ["1000:/etc/foo"; "7:/gone"])) in
  paths (self (snd (usc_state_tracker_load fs (tracking [])))) = [Some "/etc/foo"] /\
  (In (Some "/etc/foo") (paths (self (tracking []))) \/
   usc_file_exists fs "/etc/foo" = true).
Proof.
  intros fs. split; [reflexivity|].
  apply (load_adds_existing_paths_only fs (tracking []) "/etc/foo").
  now left.
Defined.

(** X11: a load that returns success has touched the Entries of the
    paths its file names, and no other: a path that is the path field of
    no line has the Entry it had, or none as before. *)
Theorem load_frame fs st contents q :
  fopen_r fs (state_file (self st)) = inr contents ->
  fst (usc_state_tracker_load fs st) = true ->
  ~ In (Some q) (map line_path (getlines contents)) ->
  found (self (snd (usc_state_tracker_load fs st))) q = found (self st) q.
Proof.
  intros Hopen Hok Hq.
  rewrite (load_success_state fs st contents Hopen Hok).
  apply (load_loop_steps fs (fun a b => found (self b) q = found (self a) q)).
  - reflexivity.
  - intros a b c Hab Hbc. now rewrite Hbc.
  - intros a bfr p t Hin Hp _.
    apply put_entry_frame. intros ->.
    apply Hq. rewrite <- Hp. now apply in_map.
Qed.

Lemma load_frame_witness :
  let fs := disk [("/etc/foo", 1000); ("/etc/bar", 5)]
              (inr (file_of_lines ["1000:/etc/foo"])) in
  let st := tracking [mkEntry (Some "/etc/bar") 5; mkEntry (Some "/etc/foo") 1] in
  found (self (snd (usc_state_tracker_load fs st))) "/etc/bar"
  = Some (mkEntry (Some "/etc/bar") 5).
Proof.
  intros fs st.
  refine (load_frame fs st _ "/etc/bar" eq_refl eq_refl _).
  simpl. intros [H|[]]. discriminate.
Defined.

(** ** load: several lines for one path *)

Lemma load_loop_last_wins fs es :
  Forall (fun e => kept fs e = true /\ writable fs e) es ->
  forall errno st,
    heap st = [] ->
    exists st',
      load_loop fs (map line_of es) errno st = (errno, st') /\
      heap st' = [] /\
      (forall q, ~ In (Some q) (map ptr es) -> found (self st') q = found (self st) q) /\
      (forall es1 e es2 p,
         es = (es1 ++ e :: es2)%list -> ptr e = Some p ->
         ~ In (Some p) (map ptr es2) ->
         found (self st') p = Some (mkEntry (Some p) (mtime e))).
Proof.
  induction 1 as [|e0 es [Hkept Hw] _ IH]; intros errno st Hheap.
  - exists st. simpl. repeat split; auto.
    intros [|? ?] e es2 p Hes; discriminate.
  - destruct (Hw Hkept) as [Hrange Hplain].
    unfold kept in Hkept. cbn [map load_loop]. unfold line_of at 1.
    destruct (ptr e0) as [p0|] eqn:Hp0; [|discriminate].
    rewrite (load_line_record fs (mtime e0) p0 errno st Hrange
               (Hplain p0 eq_refl) Hkept).
    destruct (put_entry_plentiful st p0 (mtime e0) Hheap)
      as (st1 & -> & Hheap1 & Hsame & Hother).
    cbn [negb].
    destruct (IH errno st1 Hheap1) as (st2 & Hloop & Hheap2 & Hout & Hlast).
    exists st2. split; [exact Hloop|]. split; [exact Hheap2|]. split.
    + intros q Hq. cbn [map] in Hq. rewrite Hout by (intros Hin; apply Hq; now right).
      apply Hother. intros ->. apply Hq. now left.
    + intros es1 e es2 p Hes Hp Hlater.
      destruct es1 as [|e1 es1]; simpl in Hes; injection Hes as <- ->.
      * rewrite Hp0 in Hp. injection Hp as <-.
        now rewrite (Hout p0 Hlater).
      * now apply (Hlast es1 e es2 p).
Qed.

(** X12: a state file may have several lines for one path; when all its
    lines are lines as write prints them, for paths that exist, load
    with memory left returns success, and every path gets the mtime of
    its last line, while paths the file does not name keep their Entry. *)
Theorem load_last_record_wins fs st es :
  Forall (fun e => kept fs e = true /\ writable fs e) es ->
  heap st = [] ->
  fopen_r fs (state_file (self st)) = inr (join (map line_of es)) ->
  fst (usc_state_tracker_load fs st) = true /\
  (forall es1 e es2 p,
     es = (es1 ++ e :: es2)%list -> ptr e = Some p ->
     ~ In (Some p) (map ptr es2) ->
     found (self (snd (usc_state_tracker_load fs st))) p
     = Some (mkEntry (Some p) (mtime e))) /\
  (forall q, ~ In (Some q) (map ptr es) ->
             found (self (snd (usc_state_tracker_load fs st))) q = found (self st) q).
Proof.
  intros Hes Hheap Hopen.
  unfold usc_state_tracker_load. rewrite Hopen, (getlines_records fs es Hes).
  destruct (load_loop_last_wins fs es Hes 0 st Hheap)
    as (st' & -> & _ & Hout & Hlast).
  simpl. repeat split; assumption.
Qed.

Lemma load_last_record_wins_witness :
  let es := [mkEntry (Some "/etc/foo") 1000; mkEntry (Some "/x") 7;
             mkEntry (Some "/etc/foo") 1500] in
  let fs := disk [("/etc/foo", 1500); ("/x", 7)] (inr (join (map line_of es))) in
  let st := tracking [mkEntry (Some "/etc/foo") 3] in
  fst (usc_state_tracker_load fs st) = true /\
  found (self (snd (usc_state_tracker_load fs st))) "/etc/foo"
  = Some (mkEntry (Some "/etc/foo") 1500).
Proof.
  intros es fs st.
  assert (Hes : Forall (fun e => kept fs e = true /\ writable fs e) es).
  { repeat constructor; try (unfold LLONG_MIN, LLONG_MAX; simpl; lia);
      intros p [= <-]; reflexivity. }
  destruct (load_last_record_wins fs st es Hes eq_refl eq_refl) as (Hok & Hlast & _).
  split; [exact Hok|].
  apply (Hlast [mkEntry (Some "/etc/foo") 1000; mkEntry (Some "/x") 7]
               (mkEntry (Some "/etc/foo") 1500) [] "/etc/foo");
    [reflexivity|reflexivity|intros []].
Defined.

(** ** load: a mtime out of range *)

Lemma strtoll_overflow digits errno :
  all_bytes isdigit digits = true ->
  LLONG_MAX < fst (scan_digits digits 0) ->
  exists c r off,
    digits = String c r /\ isdigit c = true /\
    strtoll digits errno = (LLONG_MAX, Some off, ERANGE).
Proof.
  intros Hall Hbig.
  destruct digits as [|c r]; [simpl in Hbig; unfold LLONG_MAX in Hbig; lia|].
  simpl in Hall. apply andb_prop in Hall as [Hc _].
  exists c, r. unfold strtoll. cbn [skip_spaces].
  rewrite (isdigit_not_space c Hc).
  rewrite (isdigit_not c "-" Hc eq_refl), (isdigit_not c "+" Hc eq_refl).
  revert Hbig. cbn [scan_digits]. rewrite Hc.
  destruct (scan_digits r (0 * 10 + digit_value c)) as [v n]. cbn [fst].
  intros Hbig.
  destruct (Z.ltb_spec v LLONG_MIN); [unfold LLONG_MIN, LLONG_MAX in *; lia|].
  destruct (Z.ltb_spec LLONG_MAX v); [|lia].
  eexists. repeat split.
Qed.

Lemma load_line_overflow fs digits p errno st :
  all_bytes isdigit digits = true ->
  LLONG_MAX < fst (scan_digits digits 0) ->
  plain p = true ->
  usc_file_exists fs p = true ->
  load_line fs ((digits ++ String ":" p) ++ String LF EmptyString) errno st
  = let (pushed, st') := usc_state_tracker_put_entry st p LLONG_MAX in
    if negb pushed then Break EINVAL st' else Continue ERANGE st'.
Proof.
  intros Hall Hbig Hplain Hexists.
  destruct (strtoll_overflow digits errno Hall Hbig) as (c & r & off & Hd & Hc & Hparse).
  apply andb_prop in Hplain as [Hnul _]. apply negb_true_iff in Hnul.
  unfold load_line.
  replace (String.length ((digits ++ String ":" p) ++ String LF EmptyString) <? 1)%nat
    with false by (rewrite Hd; reflexivity).
  rewrite strip_newline_line.
  replace (is_comment (digits ++ String ":" p)) with false
    by (rewrite Hd; simpl; now rewrite (isdigit_not c "#" Hc eq_refl)).
  rewrite (memchr_app ":" digits p (all_bytes_has_byte isdigit ":" digits Hall eq_refl)).
  replace (String.length digits <? 1)%nat with false by (rewrite Hd; reflexivity).
  rewrite drop_app, take_app, (c_str_plain p Hnul).
  rewrite (c_str_plain _ (all_bytes_has_byte isdigit NUL digits Hall eq_refl)).
  rewrite Hparse, Hexists. reflexivity.
Qed.

Lemma load_loop_last_nonzero fs before l :
  (forall errno st,
     match load_line fs l errno st with
     | Continue e _ => e <> 0
     | Break _ _ => True
     end) ->
  forall errno st, fst (load_loop fs (before ++ [l]) errno st) <> 0.
Proof.
  intros Hl. induction before as [|b before IH]; intros errno st; simpl.
  - specialize (Hl errno st).
    destruct (load_line fs l errno st) as [e1 st1|e1 st1] eqn:Hline; [exact Hl|].
    apply load_line_break in Hline. subst e1. discriminate.
  - destruct (load_line fs b errno st) as [e1 st1|e1 st1] eqn:Hline; [apply IH|].
    apply load_line_break in Hline. subst e1. discriminate.
Qed.

(** X13: [strtoll] leaves ERANGE in errno for a mtime field above
    LLONG_MAX, and load reads errno once, after the loop.  When the last
    line of the state file has such a field and names a path that
    exists, nothing resets errno any more: load returns failure and
    empties the tracker. *)
Theorem load_out_of_range_last_line fs st before digits p :
  at_line_start before = true ->
  all_bytes isdigit digits = true ->
  LLONG_MAX < fst (scan_digits digits 0) ->
  plain p = true ->
  usc_file_exists fs p = true ->
  fopen_r fs (state_file (self st))
  = inr (before ++ (digits ++ String ":" p) ++ String LF EmptyString) ->
  fst (usc_state_tracker_load fs st) = false /\
  entry (self (snd (usc_state_tracker_load fs st))) = [].
Proof.
  intros Hstart Hall Hbig Hplain Hexists Hopen.
  assert (Hfail : fst (usc_state_tracker_load fs st) = false).
  { unfold usc_state_tracker_load. rewrite Hopen.
    rewrite (getlines_app before _ Hstart).
    rewrite (getlines_line (digits ++ String ":" p) EmptyString).
    2:{ apply andb_prop in Hplain as [_ Hlf]. apply negb_true_iff in Hlf.
        rewrite has_byte_app, (all_bytes_has_byte isdigit LF digits Hall eq_refl).
        simpl. exact Hlf. }
    cbn [getlines].
    pose proof (load_loop_last_nonzero fs (getlines before)
                  ((digits ++ String ":" p) ++ String LF EmptyString)) as Hne.
    match type of Hne with
    | ?A -> _ => assert (Hl : A)
    end.
    { intros errno st0.
      rewrite (load_line_overflow fs digits p errno st0 Hall Hbig Hplain Hexists).
      destruct (usc_state_tracker_put_entry st0 p LLONG_MAX) as [[|] st1]; simpl;
        [discriminate|exact I]. }
    specialize (Hne Hl 0 st).
    destruct (load_loop fs _ 0 st) as [e st1]. simpl in *.
    apply Z.eqb_neq in Hne. now rewrite Hne. }
  split; [exact Hfail|].
  now apply load_failure_clears with (1 := Hopen).
Qed.

Lemma load_out_of_range_last_line_witness :
  let contents := file_of_lines ["7:/x"; "99999999999999999999:/etc/foo"] in
  let fs := disk [("/etc/foo", 1000); ("/x", 7)] (inr contents) in
  fst (usc_state_tracker_load fs (tracking [])) = false /\
  entry (self (snd (usc_state_tracker_load fs (tracking [])))) = [].
Proof.
  intros contents fs.
  apply (load_out_of_range_last_line fs (tracking [])
           ("7:/x" ++ String LF EmptyString) "99999999999999999999" "/etc/foo");
    try reflexivity.
Defined.

(** ** load: the newline of the last line *)

Lemma strip_newline_none l : at_line_start l = false -> strip_newline l = l.
Proof.
  induction l as [|c l IH]; [discriminate|].
  destruct l as [|c' l'].
  - simpl. now intros ->.
  - intros H. change (strip_newline (String c (String c' l')))
      with (String c (strip_newline (String c' l'))).
    now rewrite IH.
Qed.

Lemma getlines_last_newline s :
  at_line_start s = false ->
  exists ls l,
    getlines s = (ls ++ [l])%list /\
    getlines (s ++ String LF EmptyString) = (ls ++ [(l ++ String LF EmptyString)%string])%list /\
    at_line_start l = false.
Proof.
  induction s as [|c s IH]; [discriminate|].
  destruct s as [|c' s'].
  - intros H. exists [], (String c EmptyString). simpl in *. now rewrite H.
  - intros H. destruct (IH H) as (ls & l & Hs & Hs' & Hl). clear IH.
    change ((String c (String c' s') ++ String LF EmptyString)%string)
      with (String c (String c' s' ++ String LF EmptyString)%string).
    rewrite !(getlines_cons c), Hs, Hs'.
    destruct (Ascii.eqb c LF).
    + exists (String c EmptyString :: ls), l. now repeat split.
    + destruct ls as [|l0 ls0]; simpl.
      * exists [], (String c l). repeat split.
        destruct l; [discriminate|exact Hl].
      * exists (String c l0 :: ls0), l. now repeat split.
Qed.

Lemma load_line_newline fs l errno st :
  at_line_start l = false ->
  load_line fs (l ++ String LF EmptyString) errno st = load_line fs l errno st.
Proof.
  intros Hl. unfold load_line.
  rewrite strip_newline_line, (strip_newline_none l Hl).
  destruct l; [discriminate|reflexivity].
Qed.

(** X14: the newline that ends the last line of the state file does not
    matter: a file whose last line lacks it loads as the same file with
    the newline added. *)
Theorem load_last_newline_optional fs fs' st contents :
  at_line_start contents = false ->
  fopen_r fs (state_file (self st)) = inr contents ->
  fopen_r fs' (state_file (self st)) = inr (contents ++ String LF EmptyString) ->
  usc_file_exists fs' = usc_file_exists fs ->
  usc_state_tracker_load fs' st = usc_state_tracker_load fs st.
Proof.
  intros Hlast Hopen Hopen' Hexists.
  destruct (getlines_last_newline contents Hlast) as (ls & l & Hs & Hs' & Hl).
  unfold usc_state_tracker_load. rewrite Hopen, Hopen', Hs, Hs'.
  assert (Hloop : forall errno st0,
             load_loop fs' (ls ++ [(l ++ String LF EmptyString)%string]) errno st0
             = load_loop fs (ls ++ [l]) errno st0).
  { clear Hs Hs'.
    induction ls as [|b ls IH]; intros errno st0;
      rewrite ?app_nil_l, <- ?app_comm_cons; cbn [load_loop].
    - rewrite (load_line_newline fs' l errno st0 Hl).
      unfold load_line. now rewrite Hexists.
    - replace (load_line fs' b errno st0) with (load_line fs b errno st0)
        by (unfold load_line; now rewrite Hexists).
      destruct (load_line fs b errno st0); [apply IH|reflexivity]. }
  now rewrite Hloop.
Qed.

Lemma load_last_newline_optional_witness :
  let body := ("1000:/etc/foo" ++ String LF "7:/x")%string in
  let fs contents := disk [("/etc/foo", 1000); ("/x", 7)] (inr contents) in
  usc_state_tracker_load (fs (body ++ String LF EmptyString)) (tracking [])
  = usc_state_tracker_load (fs body) (tracking []) /\
  usc_state_tracker_load (fs body) (tracking [])
  = (true, tracking [mkEntry (Some "/x") 7; mkEntry (Some "/etc/foo") 1000]).
Proof.
  intros body fs. split; [|reflexivity].
  exact (load_last_newline_optional (fs body) (fs (body ++ String LF EmptyString)%string)
           (tracking []) body eq_refl eq_refl eq_refl eq_refl).
Defined.

(** ** record-path: why it fails *)

(** X15: record-path fails for the reasons of [push_failure] and no
    other: the input does not canonicalize, the canonical path cannot be
    stat'ed, or the path has no Entry yet and one of the two allocations
    for a new one fails.  A path that has an Entry is recorded without
    any allocation. *)
Theorem push_path_fails_only fs st path :
  fst (usc_state_tracker_push_path fs st path) = false ->
  push_failure fs st path.
Proof.
  unfold usc_state_tracker_push_path.
  destruct (realpath fs path) as [dup|] eqn:Hc;
    [|intros _; now apply canonicalize_fails].
  destruct (stat fs dup) as [m|] eqn:Hs;
    [|intros _; now apply stat_fails with dup].
  unfold usc_state_tracker_put_entry.
  destruct (usc_state_tracker_lookup (self st) dup) as [[i e]|] eqn:Hl;
    [discriminate|].
  destruct (heap st) as [|[|] [|[|] h]] eqn:Hh; simpl; try discriminate; intros _.
  - now apply path_allocation_fails with dup m h.
  - now apply entry_allocation_fails with dup m [].
  - now apply entry_allocation_fails with dup m (true :: h).
  - now apply entry_allocation_fails with dup m (false :: h).
Qed.

Lemma push_path_fails_only_witness :
  push_failure (disk [] (inl ENOENT)) (tracking []) "/etc/foo".
Proof.
  exact (push_path_fails_only (disk [] (inl ENOENT)) (tracking []) "/etc/foo" eq_refl).
Defined.

(** ** record-path, then write *)

Lemma join_app l1 l2 : join (l1 ++ l2) = (join l1 ++ join l2)%string.
Proof.
  induction l1 as [|a l1 IH]; simpl; [reflexivity|].
  now rewrite IH, append_assoc.
Qed.

Lemma found_in t p e : found t p = Some e -> In e (entry t).
Proof.
  unfold found, usc_state_tracker_lookup.
  induction (entry t) as [|e0 next IH]; simpl; [discriminate|].
  destruct (entry_matches e0 p).
  - intros [= <-]. now left.
  - destruct (lookup_from next p) as [[i f]|]; [|discriminate].
    intros [= <-]. right. now apply IH.
Qed.

(** X16: write reflects a record-path made before it: after a
    record-path that succeeded, the text printed by a write that
    succeeds, made while the canonical path still exists, has the line
    of that path with the mtime record-path read. *)
Theorem write_after_push fs fs' st path dup m dir contents :
  fst (usc_state_tracker_push_path fs st path) = true ->
  realpath fs path = Some dup ->
  stat fs dup = Some m ->
  usc_file_exists fs' dup = true ->
  usc_state_tracker_write dir fs'
    (self (snd (usc_state_tracker_push_path fs st path)))
  = (true, Some contents) ->
  exists before rest,
    contents = (before ++ record_line m dup ++ rest)%string /\
    at_line_start before = true /\
    (plain dup = true -> In (record_line m dup) (getlines contents)).
Proof.
  intros Hok Hc Hs Hexists Hwrite.
  destruct (push_path_success fs st path Hok)
    as (dup0 & m0 & Hc0 & Hs0 & Hfound & _).
  rewrite Hc in Hc0. injection Hc0 as <-.
  rewrite Hs in Hs0. injection Hs0 as <-.
  apply found_in in Hfound.
  set (t := self (snd (usc_state_tracker_push_path fs st path))) in *.
  assert (Hkept : In (mkEntry (Some dup) m) (filter (kept fs') (entry t))).
  { apply filter_In. split; [exact Hfound|exact Hexists]. }
  apply in_split in Hkept as (es1 & es2 & Hes).
  unfold usc_state_tracker_write in Hwrite.
  destruct (negb (usc_file_exists fs' dir) && negb (mkdir fs' dir)); [discriminate|].
  destruct (negb (fopen_w fs' (state_file t))); [discriminate|].
  destruct (write_entries fs' (entry t) _) as [ok out] eqn:Hout.
  injection Hwrite as -> <-.
  assert (Hlines : forall pre,
             at_line_start pre = true ->
             at_line_start (pre ++ join (map line_of es1)) = true).
  { clear. induction es1 as [|e es1 IH]; intros pre Hpre; simpl.
    - now rewrite append_empty_r.
    - rewrite <- append_assoc. apply IH.
      unfold line_of. destruct (ptr e) as [p|]; [|now rewrite append_empty_r].
      rewrite record_line_split, <- append_assoc.
      generalize (pre ++ print_ld (mtime e) ++ String ":" p)%string as s.
      clear. induction s as [|c s IHs]; [reflexivity|].
      destruct s; [reflexivity|exact IHs]. }
  apply write_entries_ok in Hout. rewrite Hes, map_app, join_app in Hout.
  cbn [map join fold_right] in Hout. unfold line_of at 2 in Hout. simpl ptr in Hout.
  simpl mtime in Hout. fold (join (map line_of es2)) in Hout.
  exists ((if fprintf_ok fs' header then header else EmptyString)
          ++ join (map line_of es1))%string, (join (map line_of es2)).
  assert (Hshape : out = (((if fprintf_ok fs' header then header else EmptyString)
                           ++ join (map line_of es1))
                          ++ record_line m dup ++ join (map line_of es2))%string)
    by (rewrite Hout; now rewrite append_assoc).
  assert (Hstart : at_line_start
                     ((if fprintf_ok fs' header then header else EmptyString)
                      ++ join (map line_of es1)) = true)
    by (apply Hlines; now destruct (fprintf_ok fs' header)).
  split; [exact Hshape|]. split; [exact Hstart|].
  intros Hplain. rewrite Hshape, (getlines_app _ _ Hstart).
  apply in_or_app. right.
  rewrite record_line_split.
  pose proof (record_line_one_line m dup Hplain) as Hone.
  set (s := (print_ld m ++ String ":" dup)%string) in *.
  rewrite append_assoc.
  change (String LF EmptyString ++ join (map line_of es2))%string
    with (String LF (join (map line_of es2))).
  rewrite (getlines_line s _ Hone).
  now left.
Qed.

Lemma write_after_push_witness :
  let fs := disk [("/tmp/a:b", 42)] (inl ENOENT) in
  let t := self (snd (usc_state_tracker_push_path fs (tracking []) "/tmp/a:b")) in
  exists contents,
    usc_state_tracker_write "/var/lib/usysconf" fs t = (true, Some contents) /\
    In ("42:/tmp/a:b" ++ String LF EmptyString)%string (getlines contents).
Proof.
  intros fs t. eexists. split; [reflexivity|].
  destruct (write_after_push fs fs (tracking []) "/tmp/a:b" "/tmp/a:b" 42
              "/var/lib/usysconf" _ eq_refl eq_refl eq_refl eq_refl eq_refl)
    as (before & rest & _ & _ & Hin).
  exact (Hin eq_refl).
Defined.


(** ** write, then load: the whole tracker *)

Lemma load_loop_fresh fs es :
  Forall (fun e => kept fs e = true /\ writable fs e) es ->
  NoDup (map ptr es) ->
  forall errno st,
    heap st = [] ->
    (forall e, In e es -> ~ In (ptr e) (paths (self st))) ->
    load_loop fs (map line_of es) errno st
    = (errno, mkState (mkTracker (state_file (self st))
                         (List.rev es ++ entry (self st))) []).
Proof.
  induction 1 as [|e0 es [Hkept Hw] _ IH]; intros Hnodup errno st Hheap Hfresh.
  - simpl. destruct st as [[file chain] h]. simpl in *. now subst h.
  - destruct (Hw Hkept) as [Hrange Hplain].
    cbn [map] in Hnodup. apply NoDup_cons_iff in Hnodup as [Hout Hnodup].
    pose proof (Hfresh e0 (or_introl eq_refl)) as Hnew.
    unfold kept in Hkept. cbn [map load_loop]. unfold line_of at 1.
    destruct e0 as [[p0|] m0]; simpl in *; [|discriminate].
    rewrite (load_line_record fs m0 p0 errno st Hrange (Hplain p0 eq_refl) Hkept).
    apply lookup_from_none in Hnew.
    unfold usc_state_tracker_put_entry, usc_state_tracker_lookup.
    rewrite Hnew, Hheap. cbn [malloc negb].
    rewrite IH; try assumption; try reflexivity.
    + simpl. now rewrite <- app_assoc.
    + intros e He. unfold paths. simpl. intros [Heq|Hin].
      * apply Hout. rewrite Heq. now apply in_map.
      * apply (Hfresh e); [now right|exact Hin].
Qed.

(** X17: loading a state file that holds what write printed into a
    fresh tracker gives the tracker written back, less the Entries
    whose path was gone, and in the opposite order: load puts every
    line in front of the chain. *)
Theorem write_load_restores_entries dir fs t contents :
  usc_state_tracker_write dir fs t = (true, Some contents) ->
  NoDup (paths t) ->
  Forall (writable fs) (entry t) ->
  usc_state_tracker_load (with_state_file fs (state_file t) contents)
    (mkState (usc_state_tracker_new (state_file t)) [])
  = (true, mkState (mkTracker (state_file t) (List.rev (filter (kept fs) (entry t)))) []).
Proof.
  intros Hwrite Hnodup Hwritable.
  set (fs' := with_state_file fs (state_file t) contents).
  set (es := filter (kept fs) (entry t)).
  set (st0 := mkState (usc_state_tracker_new (state_file t)) []).
  assert (Hes : Forall (fun e => kept fs' e = true /\ writable fs' e) es).
  { apply Forall_forall. intros e He. apply filter_In in He as [He Hk].
    split; [exact Hk|]. rewrite Forall_forall in Hwritable. now apply Hwritable. }
  assert (Hnd : NoDup (map ptr es)) by now apply NoDup_map_filter.
  apply write_is_projection_lines in Hwrite. fold es in Hwrite.
  unfold usc_state_tracker_load.
  replace (fopen_r fs' (state_file (self st0))) with (@inr Z string contents)
    by (simpl; now rewrite String.eqb_refl).
  assert (Hrun : load_loop fs' (getlines contents) 0 st0
                 = load_loop fs' (map line_of es) 0 st0).
  { rewrite Hwrite. destruct (fprintf_ok fs header).
    - rewrite getlines_header, (getlines_records fs' es Hes).
      cbn [load_loop]. now rewrite load_line_header.
    - cbn [append]. now rewrite (getlines_records fs' es Hes). }
  rewrite Hrun, (load_loop_fresh fs' es Hes Hnd 0 st0 eq_refl) by (intros e _ []).
  simpl. now rewrite app_nil_r.
Qed.

Lemma write_load_restores_entries_witness :
  let fs := disk [("/etc/foo", 1000); ("/x", 7)] (inl ENOENT) in
  let t := mkTracker status_path
             [mkEntry (Some "/etc/foo") 1000; mkEntry (Some "/gone") 3;
              mkEntry (Some "/x") (-7)] in
  exists contents,
    usc_state_tracker_write "/var/lib/usysconf" fs t = (true, Some contents) /\
    usc_state_tracker_load (with_state_file fs status_path contents)
      (mkState (usc_state_tracker_new status_path) [])
    = (true, tracking [mkEntry (Some "/x") (-7); mkEntry (Some "/etc/foo") 1000]).
Proof.
  intros fs t. eexists. split; [reflexivity|].
  apply (write_load_restores_entries "/var/lib/usysconf" fs t _ eq_refl).
  - unfold paths. simpl.
    repeat constructor; simpl; intuition discriminate.
  - repeat constructor; try (unfold LLONG_MIN, LLONG_MAX; simpl; lia);
      intros p [= <-]; reflexivity.
Defined.

(** ** load: a malformed line among good ones *)

(** C6: the all-or-nothing policy does not reach a malformed mtime.
    On a state file with a good line and then the line of scenario S6,
    load with memory left returns success: the tracker keeps every path
    it held before the call, keeps the Entry merged from the good line,
    and gets one with mtime 0 for the malformed line. *)
Theorem load_keeps_entries_past_malformed_mtime fs st :
  fopen_r fs (state_file (self st))
  = inr (file_of_lines ["1000:/etc/foo"; "notanumber:/x"]) ->
  usc_file_exists fs "/etc/foo" = true ->
  usc_file_exists fs "/x" = true ->
  heap st = [] ->
  fst (usc_state_tracker_load fs st) = true /\
  incl (paths (self st)) (paths (self (snd (usc_state_tracker_load fs st)))) /\
  found (self (snd (usc_state_tracker_load fs st))) "/etc/foo"
  = Some (mkEntry (Some "/etc/foo") 1000) /\
  found (self (snd (usc_state_tracker_load fs st))) "/x"
  = Some (mkEntry (Some "/x") 0).
Proof.
  intros Hopen Hfoo Hx Hheap.
  unfold usc_state_tracker_load. rewrite Hopen.
  change (getlines (file_of_lines ["1000:/etc/foo"; "notanumber:/x"]))
    with [("1000:/etc/foo" ++ String LF EmptyString)%string;
          ("notanumber:/x" ++ String LF EmptyString)%string].
  cbn [load_loop].
  change (load_line fs ("1000:/etc/foo" ++ String LF EmptyString) 0 st)
    with (if negb (usc_file_exists fs "/etc/foo") then Continue 0 st
          else let (pushed, st') := usc_state_tracker_put_entry st "/etc/foo" 1000 in
               if negb pushed then Break EINVAL st' else Continue 0 st').
  rewrite Hfoo. cbn [negb].
  pose proof (put_entry_paths_cases st "/etc/foo" 1000) as Hp1.
  destruct (put_entry_plentiful st "/etc/foo" 1000 Hheap)
    as (st1 & Hput1 & Hheap1 & Hfound1 & _).
  rewrite Hput1 in *. cbn [negb snd] in *.
  change (load_line fs ("notanumber:/x" ++ String LF EmptyString) 0 st1)
    with (if negb (usc_file_exists fs "/x") then Continue 0 st1
          else let (pushed, st') := usc_state_tracker_put_entry st1 "/x" 0 in
               if negb pushed then Break EINVAL st' else Continue 0 st').
  rewrite Hx. cbn [negb].
  pose proof (put_entry_paths_cases st1 "/x" 0) as Hp2.
  pose proof (put_entry_frame st1 "/x" 0 "/etc/foo") as Hframe.
  destruct (put_entry_plentiful st1 "/x" 0 Hheap1)
    as (st2 & Hput2 & _ & Hfound2 & _).
  rewrite Hput2 in *. cbn [negb snd fst] in *.
  change (0 =? 0) with true. cbn [negb snd fst].
  split; [reflexivity|]. split; [|split].
  - apply incl_tran with (paths (self st1)).
    + destruct Hp1 as [-> | ->]; [apply incl_refl|apply incl_tl, incl_refl].
    + destruct Hp2 as [-> | ->]; [apply incl_refl|apply incl_tl, incl_refl].
  - rewrite Hframe by discriminate. exact Hfound1.
  - exact Hfound2.
Qed.

Lemma load_keeps_entries_past_malformed_mtime_witness :
  let fs := disk [("/etc/foo", 1000); ("/x", 7); ("/etc/baz", 3)]
              (inr (file_of_lines ["1000:/etc/foo"; "notanumber:/x"])) in
  let st := tracking [mkEntry (Some "/etc/baz") 3] in
  usc_state_tracker_load fs st
  = (true, tracking [mkEntry (Some "/x") 0; mkEntry (Some "/etc/foo") 1000;
                     mkEntry (Some "/etc/baz") 3]) /\
  fst (usc_state_tracker_load fs st) = true /\
  incl (paths (self st)) (paths (self (snd (usc_state_tracker_load fs st)))).
Proof.
  intros fs st.
  split; [reflexivity|].
  destruct (load_keeps_entries_past_malformed_mtime fs st eq_refl eq_refl eq_refl eq_refl)
    as (Hok & Hkept & _).
  split; [exact Hok|exact Hkept].
Defined.
